(** * Smartprix scraper: a shallow embedding of [main.py] and its properties

    The development follows the source file top to bottom: Python text and
    JSON values, [json.dumps], the key encoder [Sa], the record flattener
    [parse_product], the progress file ([load_progress], [save_progress]),
    the batch selection and fetch loop of [main], and the data-frame steps
    that rewrite the CSV store.  Definitions come first, theorems after. *)

From Stdlib Require Import ZArith List Decimal DecimalPos DecimalFacts SpecFloat.
From Stdlib Require Import Strings.String Strings.Ascii.
From stdpp Require Import base option list gmap sets countable sorting.

Local Open Scope Z_scope.

(** ** Python text

    A Python [str] is a sequence of code points; [ord] is the identity on
    this representation. *)

Abbreviation pystr := (list Z).

Definition u (s : string) : pystr :=
  List.map (fun a => Z.of_nat (nat_of_ascii a)) (list_ascii_of_string s).

Definition digit_char (d : Z) : Z := 48 + d.

Fixpoint uint_text (d : Decimal.uint) : pystr :=
  match d with
  | Nil => []
  | D0 d => digit_char 0 :: uint_text d
  | D1 d => digit_char 1 :: uint_text d
  | D2 d => digit_char 2 :: uint_text d
  | D3 d => digit_char 3 :: uint_text d
  | D4 d => digit_char 4 :: uint_text d
  | D5 d => digit_char 5 :: uint_text d
  | D6 d => digit_char 6 :: uint_text d
  | D7 d => digit_char 7 :: uint_text d
  | D8 d => digit_char 8 :: uint_text d
  | D9 d => digit_char 9 :: uint_text d
  end.

(** [repr] of a Python [int]. *)
Definition int_text (z : Z) : pystr :=
  match z with
  | Z0 => [digit_char 0]
  | Zpos p => uint_text (Pos.to_uint p)
  | Zneg p => 45 :: uint_text (Pos.to_uint p)
  end.

Definition hex_char (d : Z) : Z := if d <? 10 then 48 + d else 87 + d.

(** ['{0:04x}'.format(n)] for [0 <= n < 65536]. *)
Definition hex4 (n : Z) : pystr :=
  [hex_char (n / 4096 mod 16); hex_char (n / 256 mod 16);
   hex_char (n / 16 mod 16); hex_char (n mod 16)].

Fixpoint join_text (sep : pystr) (parts : list pystr) : pystr :=
  match parts with
  | [] => []
  | [p] => p
  | p :: ps => p ++ sep ++ join_text sep ps
  end.

(** [seq[i]] with Python's negative indices; [None] is [IndexError]. *)
Definition py_index {A} (l : list A) (i : Z) : option A :=
  let n := Z.of_nat (length l) in
  if 0 <=? i then l !! Z.to_nat i
  else if - n <=? i then l !! Z.to_nat (n + i)
  else None.

(** [seq[:n]] with Python's clipping and negative bounds. *)
Definition py_slice_to {A} (l : list A) (n : Z) : list A :=
  if 0 <=? n then take (Z.to_nat n) l
  else take (Z.to_nat (Z.of_nat (length l) + n)) l.

(** A code point that UTF-8 can encode. *)
Definition scalar_value (c : Z) : bool :=
  (0 <=? c) && (c <=? 1114111) && negb ((55296 <=? c) && (c <=? 57343)).

(** ** JSON values as Python objects *)

Unset Elimination Schemes.
Inductive json : Type :=
  | JNull
  | JBool (b : bool)
  | JInt (z : Z)
  | JFloat (f : spec_float)
  | JStr (s : pystr)
  | JList (l : list json)
  | JDict (d : list (pystr * json)).
Set Elimination Schemes.

(** Hashable scalars: what a Python [set] built from JSON data can hold. *)
Inductive atom : Type :=
  | ANull
  | ABool (b : bool)
  | AInt (z : Z)
  | AFloat (f : spec_float)
  | AStr (s : pystr).

Definition atom_json (a : atom) : json :=
  match a with
  | ANull => JNull
  | ABool b => JBool b
  | AInt z => JInt z
  | AFloat f => JFloat f
  | AStr s => JStr s
  end.

(** [None] is [TypeError: unhashable type]. *)
Definition json_atom (v : json) : option atom :=
  match v with
  | JNull => Some ANull
  | JBool b => Some (ABool b)
  | JInt z => Some (AInt z)
  | JFloat f => Some (AFloat f)
  | JStr s => Some (AStr s)
  | JList _ | JDict _ => None
  end.

Definition float_code (f : spec_float) : bool + bool + unit + bool * positive * Z :=
  match f with
  | S754_zero s => inl (inl (inl s))
  | S754_infinity s => inl (inl (inr s))
  | S754_nan => inl (inr tt)
  | S754_finite s m e => inr (s, m, e)
  end.

Definition code_float (c : bool + bool + unit + bool * positive * Z) : spec_float :=
  match c with
  | inl (inl (inl s)) => S754_zero s
  | inl (inl (inr s)) => S754_infinity s
  | inl (inr _) => S754_nan
  | inr (s, m, e) => S754_finite s m e
  end.

#[global] Instance spec_float_eq_dec : EqDecision spec_float.
Proof. solve_decision. Defined.

#[global] Instance spec_float_countable : Countable spec_float.
Proof.
  apply (inj_countable' float_code code_float).
  intros []; reflexivity.
Defined.

Definition atom_code (a : atom) : unit + bool + Z + spec_float + pystr :=
  match a with
  | ANull => inl (inl (inl (inl tt)))
  | ABool b => inl (inl (inl (inr b)))
  | AInt z => inl (inl (inr z))
  | AFloat f => inl (inr f)
  | AStr s => inr s
  end.

Definition code_atom (c : unit + bool + Z + spec_float + pystr) : atom :=
  match c with
  | inl (inl (inl (inl _))) => ANull
  | inl (inl (inl (inr b))) => ABool b
  | inl (inl (inr z)) => AInt z
  | inl (inr f) => AFloat f
  | inr s => AStr s
  end.

#[global] Instance atom_eq_dec : EqDecision atom.
Proof. solve_decision. Defined.

#[global] Instance atom_countable : Countable atom.
Proof.
  apply (inj_countable' atom_code code_atom).
  intros []; reflexivity.
Defined.

(** Truth value of an object ([if x:], [not x]). *)
Definition truthy (v : json) : bool :=
  match v with
  | JNull => false
  | JBool b => b
  | JInt z => negb (z =? 0)
  | JFloat (S754_zero _) => false
  | JFloat _ => true
  | JStr s => negb (bool_decide (s = []))
  | JList l => match l with [] => false | _ => true end
  | JDict d => match d with [] => false | _ => true end
  end.

(** Insertion-ordered dictionaries with string keys. *)
Fixpoint dict_get {V} (k : pystr) (d : list (pystr * V)) : option V :=
  match d with
  | [] => None
  | (k', v) :: d' => if bool_decide (k' = k) then Some v else dict_get k d'
  end.

(** [d[k] = v]: an existing key keeps its position, a new key goes last. *)
Fixpoint dict_set {V} (k : pystr) (v : V) (d : list (pystr * V)) : list (pystr * V) :=
  match d with
  | [] => [(k, v)]
  | (k', v') :: d' =>
      if bool_decide (k' = k) then (k', v) :: d' else (k', v') :: dict_set k v d'
  end.

(** [d.update(other)]. *)
Definition dict_update {V} (d other : list (pystr * V)) : list (pystr * V) :=
  foldl (fun acc kv => dict_set kv.1 kv.2 acc) d other.

Definition dict_keys {V} (d : list (pystr * V)) : list pystr := d.*1.

(** [x.get(k, default)]; [None] is [AttributeError] (only a dict has [get]). *)
Definition py_get (x : json) (k : pystr) (dflt : json) : option json :=
  match x with
  | JDict d => Some (default dflt (dict_get k d))
  | _ => None
  end.

(** [for x in v]; [None] is [TypeError: object is not iterable].  A dict
    yields its keys and a string its characters. *)
Definition py_iter (v : json) : option (list json) :=
  match v with
  | JList l => Some l
  | JDict d => Some (JStr <$> dict_keys d)
  | JStr s => Some ((fun c => JStr [c]) <$> s)
  | JNull | JBool _ | JInt _ | JFloat _ => None
  end.

(** ** What the interpreter supplies

    The digits Python prints for a float, the float it reads from a numeral,
    the [repr] of a container inside an f-string and the iteration order of
    a [set] are taken as given.  Of the printed digits only this is used: a
    finite float prints as a JSON number. *)

Definition is_finite (f : spec_float) : bool :=
  match f with
  | S754_zero _ | S754_finite _ _ _ => true
  | S754_infinity _ | S754_nan => false
  end.

Definition is_digit (c : Z) : bool := (48 <=? c) && (c <=? 57).

(** The number production of the JSON grammar: an optional minus, an integer
    part without leading zero, an optional fraction, an optional exponent. *)
Definition int_part (t : pystr) : Prop :=
  t = [48] ∨ ∃ d ds, t = d :: ds ∧ 49 ≤ d ≤ 57 ∧ Forall (λ c, is_digit c = true) ds.

Definition frac_part (t : pystr) : Prop :=
  t = [] ∨ ∃ d ds, t = 46 :: d :: ds ∧ Forall (λ c, is_digit c = true) (d :: ds).

Definition exp_part (t : pystr) : Prop :=
  t = [] ∨ ∃ e sign d ds,
    t = e :: sign ++ d :: ds ∧ (e = 101 ∨ e = 69)
    ∧ (sign = [] ∨ sign = [45] ∨ sign = [43])
    ∧ Forall (λ c, is_digit c = true) (d :: ds).

Definition number_text (t : pystr) : Prop :=
  ∃ sign i f e,
    t = sign ++ i ++ f ++ e ∧ (sign = [] ∨ sign = [45])
    ∧ int_part i ∧ frac_part f ∧ exp_part e.

Class PyRuntime := {
  float_repr : spec_float → pystr;
  float_repr_number : ∀ f, is_finite f = true → number_text (float_repr f);
  float_of_text : pystr → spec_float;
  container_repr : json → pystr;
  set_order : gset atom → list atom;
  set_order_perm : ∀ S, set_order S ≡ₚ elements S
}.

(** ** [json.dumps] *)

Record dump_opts := {
  ensure_ascii : bool;
  item_separator : pystr;
  key_separator : pystr;
  indent : option nat
}.

(** [json.dumps(e, separators=(",", ":"))]. *)
Definition compact_opts : dump_opts :=
  {| ensure_ascii := true; item_separator := u ","; key_separator := u ":";
     indent := None |}.

(** [json.dumps(x, ensure_ascii=False)]. *)
Definition plain_opts : dump_opts :=
  {| ensure_ascii := false; item_separator := u ", "; key_separator := u ": ";
     indent := None |}.

(** [json.dump(x, f, ensure_ascii=False, indent=2)]. *)
Definition indent2_opts : dump_opts :=
  {| ensure_ascii := false; item_separator := u ","; key_separator := u ": ";
     indent := Some 2%nat |}.

(** The escapes shared by both string encoders ([ESCAPE_DCT]). *)
Definition escape_short (c : Z) : option pystr :=
  if c =? 34 then Some [92; 34]
  else if c =? 92 then Some (u "\\")
  else if c =? 10 then Some (u "\n")
  else if c =? 13 then Some (u "\r")
  else if c =? 9 then Some (u "\t")
  else if c =? 8 then Some (u "\b")
  else if c =? 12 then Some (u "\f")
  else None.

(** One character under [py_encode_basestring] ([ensure_ascii=False]). *)
Definition escape_char (c : Z) : pystr :=
  match escape_short c with
  | Some e => e
  | None => if (0 <=? c) && (c <? 32) then u "\u" ++ hex4 c else [c]
  end.

(** One character under [py_encode_basestring_ascii]. *)
Definition escape_char_ascii (c : Z) : pystr :=
  match escape_short c with
  | Some e => e
  | None =>
      if (32 <=? c) && (c <=? 126) then [c]
      else if c <? 65536 then u "\u" ++ hex4 c
      else
        let v := c - 65536 in
        let s1 := Z.lor 55296 (Z.land (Z.shiftr v 10) 1023) in
        let s2 := Z.lor 56320 (Z.land v 1023) in
        u "\u" ++ hex4 s1 ++ u "\u" ++ hex4 s2
  end.

Definition encode_str (o : dump_opts) (s : pystr) : pystr :=
  34 :: flat_map (if ensure_ascii o then escape_char_ascii else escape_char) s ++ [34].

Definition float_json {rt : PyRuntime} (f : spec_float) : pystr :=
  match f with
  | S754_nan => u "NaN"
  | S754_infinity false => u "Infinity"
  | S754_infinity true => u "-Infinity"
  | _ => float_repr f
  end.

(** The line break and indentation written before an item at [level]. *)
Definition newline_indent (o : dump_opts) (level : nat) : pystr :=
  match indent o with
  | Some n => 10 :: repeat 32 (n * level)%nat
  | None => []
  end.

Definition encode_seq (o : dump_opts) (level : nat) (opening closing : Z)
    (items : list pystr) : pystr :=
  match items with
  | [] => [opening; closing]
  | _ =>
      opening :: newline_indent o (S level)
        ++ join_text (item_separator o ++ newline_indent o (S level)) items
        ++ newline_indent o level ++ [closing]
  end.

Fixpoint json_encode {rt : PyRuntime} (o : dump_opts) (level : nat) (v : json) : pystr :=
  match v with
  | JNull => u "null"
  | JBool true => u "true"
  | JBool false => u "false"
  | JInt z => int_text z
  | JFloat f => float_json f
  | JStr s => encode_str o s
  | JList l => encode_seq o level 91 93 (List.map (json_encode o (S level)) l)
  | JDict d =>
      encode_seq o level 123 125
        (List.map (fun kv => encode_str o (fst kv) ++ key_separator o
                               ++ json_encode o (S level) (snd kv)) d)
  end.

Definition json_dumps {rt : PyRuntime} (o : dump_opts) (v : json) : pystr :=
  json_encode o 0 v.

(** ** Encoder function *)

Definition Aa : pystr :=
  u "0123456789ABCDEFGHIJKLMNOPQRSTUVWXYZabcdefghijklmnopqrstuvwxyz-_".

(** The [for ch in t] loop of [Sa]; [n] is the string built so far. *)
Fixpoint Sa_loop (t : pystr) (n : pystr) : option pystr :=
  match t with
  | [] => Some n
  | ch :: t' =>
      let code := ch in
      if 127 <? code then Sa_loop t' (n ++ [ch])
      else
        let code := code mod 95 in
        if code <? 64 then
          a ← py_index Aa code; Sa_loop t' (n ++ [a])
        else
          a ← py_index Aa (Z.land code 63); Sa_loop t' (n ++ u "." ++ [a])
  end.

Definition Sa {rt : PyRuntime} (e : json) : option pystr :=
  if negb (truthy e) then Some []
  else
    let t := json_dumps compact_opts e in
    Sa_loop t (u "1").

(** ** Parse product *)

(** A flat record: the [result] dict, keys in insertion order. *)
Abbreviation record := (list (pystr * json)).

(** [str(x)], the text an f-string inserts for [{x}]. *)
Definition py_format {rt : PyRuntime} (v : json) : pystr :=
  match v with
  | JNull => u "None"
  | JBool true => u "True"
  | JBool false => u "False"
  | JInt z => int_text z
  | JFloat S754_nan => u "nan"
  | JFloat (S754_infinity false) => u "inf"
  | JFloat (S754_infinity true) => u "-inf"
  | JFloat f => float_repr f
  | JStr s => s
  | JList _ | JDict _ => container_repr v
  end.

(** [f"{title}.{spec_title}"]. *)
Definition col_name {rt : PyRuntime} (title spec_title : json) : pystr :=
  py_format title ++ u "." ++ py_format spec_title.

(** The inner loop [for spec in items]. *)
Fixpoint flatten_items {rt : PyRuntime} (title : json) (items : list json)
    (result : record) : option record :=
  match items with
  | [] => Some result
  | spec :: rest =>
      spec_title ← py_get spec (u "title") JNull;
      spec_description ← py_get spec (u "description") JNull;
      if truthy spec_title then
        flatten_items title rest
          (dict_set (col_name title spec_title) spec_description result)
      else flatten_items title rest result
  end.

(** The outer loop [for category in full_specs]. *)
Fixpoint flatten_specs {rt : PyRuntime} (full_specs : list json)
    (result : record) : option record :=
  match full_specs with
  | [] => Some result
  | category :: rest =>
      title ← py_get category (u "title") JNull;
      items ← py_get category (u "items") (JList []);
      if truthy title then
        specs ← py_iter items;
        result' ← flatten_items title specs result;
        flatten_specs rest result'
      else flatten_specs rest result
  end.

(** One element of the [Related Items] comprehension. *)
Definition related_pair (x : json) : option json :=
  name ← py_get x (u "name") JNull;
  price ← py_get x (u "price") JNull;
  Some (JDict [(u "Name", name); (u "Price", price)]).

Definition lastmod_value (lastmod : option pystr) : json :=
  match lastmod with
  | Some s => JStr s
  | None => JNull
  end.

(** The names written by [result.update], in the order of the literal. *)
Definition core_fields : list pystr :=
  [u "Name"; u "Brand"; u "Price"; u "Price Drop"; u "Price Drop Amount";
   u "Last modified"; u "Related Items"].

(** [None] stands for the exception that leaves [parse_product]. *)
Definition parse_product {rt : PyRuntime} (data : json) (lastmod : option pystr)
    : option record :=
  item ← py_get data (u "item") (JDict []);
  full_specs ← py_get item (u "fullSpecs") (JList []);
  categories ← py_iter full_specs;
  result ← flatten_specs categories [];
  name ← py_get item (u "name") JNull;
  brand ← py_get item (u "brand") (JDict []) ≫= (λ b, py_get b (u "name") JNull);
  price ← py_get item (u "price") JNull;
  price_drop ← py_get item (u "priceDrop") JNull;
  price_drop_amount ← py_get item (u "priceDropAmount") JNull;
  products ← py_get item (u "relatedItems") (JDict [])
               ≫= (λ r, py_get r (u "products") (JList []));
  xs ← py_iter products;
  related ← mapM related_pair xs;
  Some (dict_update result
          [(u "Name", name);
           (u "Brand", brand);
           (u "Price", price);
           (u "Price Drop", price_drop);
           (u "Price Drop Amount", price_drop_amount);
           (u "Last modified", lastmod_value lastmod);
           (u "Related Items", JStr (json_dumps plain_opts (JList related)))]).

(** ** Main workflow: batch selection and the fetch loop *)

Record endpoint := { url : pystr; lastmod : option pystr }.

Definition BATCH_SIZE : Z := 100.

Definition API_BASE : pystr := u "https://www.smartprix.com/ui/api/page-info?k=".

(** [[ep for ep in endpoints if ep["url"] not in processed_urls]]. *)
Definition to_process (endpoints : list endpoint) (processed_urls : gset atom)
    : list endpoint :=
  filter (λ ep, AStr (url ep) ∉ processed_urls) endpoints.

(** [to_process[:limit]]; [main] runs it at [BATCH_SIZE]. *)
Definition next_batch (limit : Z) (endpoints : list endpoint)
    (processed_urls : gset atom) : list endpoint :=
  py_slice_to (to_process endpoints processed_urls) limit.

(** The outside world of one run: the clock reading and the outcome of the
    HTTP request made in the [i]-th iteration ([None]: the request, the
    status check or the body decoding raised). *)
Record world := {
  clock : nat → Z;
  session_get : nat → pystr → option json
}.

Definition fetch_product_data {rt : PyRuntime} (get : pystr → option json) (t : Z)
    (endpoint : pystr) : option json :=
  let st := t - 5000 in
  let payload :=
    JDict [(u "url", JStr endpoint); (u "data", JDict []);
           (u "t", JInt t); (u "st", JInt st)] in
  key ← Sa payload;
  get (API_BASE ++ key).

(** The body of the [try] for one endpoint. *)
Definition fetch_and_parse {rt : PyRuntime} (w : world) (i : nat) (ep : endpoint)
    : option record :=
  data ← fetch_product_data (session_get w i) (clock w i) (url ep);
  parse_product data (lastmod ep).

(** [for i, ep in enumerate(batch)], threading [all_results] and
    [processed_urls]. *)
Fixpoint fetch_loop {rt : PyRuntime} (w : world) (i : nat) (batch : list endpoint)
    (all_results : list record) (processed_urls : gset atom)
    : list record * gset atom :=
  match batch with
  | [] => (all_results, processed_urls)
  | ep :: rest =>
      match fetch_and_parse w i ep with
      | Some parsed =>
          fetch_loop w (S i) rest (all_results ++ [parsed])
            (processed_urls ∪ {[AStr (url ep)]})
      | None => fetch_loop w (S i) rest all_results processed_urls
      end
  end.

(** ** The tabular store

    A data frame is its column labels and its rows; a cell is [None] where
    pandas holds NaN.  Labels are unique in every frame pandas builds here
    ([read_csv] renames repeated header names, a dict has no repeated key). *)

Abbreviation cell := (option json).

Record dataframe := { columns : list pystr; rows : list (list cell) }.

(** The cell of [row] under label [c], NaN when the label is absent. *)
Definition row_cell (cols : list pystr) (row : list cell) (c : pystr) : cell :=
  mjoin (dict_get c (zip cols row)).

Definition realign (cols new_cols : list pystr) (row : list cell) : list cell :=
  row_cell cols row <$> new_cols.

Definition add_label (cols : list pystr) (c : pystr) : list pystr :=
  if bool_decide (c ∈ cols) then cols else cols ++ [c].

(** [_normalise_json] of [pandas.io.json]: nested dicts become dotted keys. *)
Fixpoint normalise_json (data : json) (key_string : pystr) (acc : record) : record :=
  match data with
  | JDict d =>
      (fix members (d : list (pystr * json)) (acc : record) : record :=
         match d with
         | [] => acc
         | kv :: d' =>
             let new_key :=
               match key_string with
               | [] => fst kv
               | _ => key_string ++ u "." ++ fst kv
               end in
             members d' (normalise_json (snd kv) new_key acc)
         end) d acc
  | _ => dict_set key_string data acc
  end.

Definition is_dict (v : json) : bool :=
  match v with JDict _ => true | _ => false end.

(** [_normalise_json_ordered]: top-level scalars first, then the flattened
    nested dicts. *)
Definition normalise_record (r : record) : record :=
  let top := filter (λ kv, is_dict kv.2 = false) r in
  let nested := normalise_json (JDict (filter (λ kv, is_dict kv.2 = true) r)) [] [] in
  dict_update top nested.

(** [pd.json_normalize(all_results, sep=".")]: one row per record, columns in
    order of first appearance. *)
Definition json_normalize (all_results : list record) : dataframe :=
  let flat := normalise_record <$> all_results in
  let cols := foldl (λ cols r, foldl add_label cols (dict_keys r)) [] flat in
  {| columns := cols; rows := (λ r, (λ c, dict_get c r) <$> cols) <$> flat |}.

(** [pd.concat([a, b], ignore_index=True)]. *)
Definition concat (a b : dataframe) : dataframe :=
  let cols := foldl add_label (columns a) (columns b) in
  {| columns := cols;
     rows := (realign (columns a) cols <$> rows a)
               ++ (realign (columns b) cols <$> rows b) |}.

(** [df.reindex(labels, axis=1)]. *)
Definition reindex (df : dataframe) (labels : list pystr) : dataframe :=
  {| columns := labels; rows := realign (columns df) labels <$> rows df |}.

(** [a <= b] on [str]: lexicographic on code points. *)
Fixpoint str_le (a b : pystr) : bool :=
  match a, b with
  | [], _ => true
  | _ :: _, [] => false
  | x :: a', y :: b' =>
      if x <? y then true else if y <? x then false else str_le a' b'
  end.

Fixpoint insert_sorted (x : pystr) (l : list pystr) : list pystr :=
  match l with
  | [] => [x]
  | y :: l' => if str_le x y then x :: l else y :: insert_sorted x l'
  end.

(** [sorted(labels)]. *)
Definition sorted (labels : list pystr) : list pystr :=
  foldr insert_sorted [] labels.

(** What is on disk at [CSV_FILE]. *)
Inductive store :=
  | StoreAbsent
  | StoreCorrupt
  | StoreTable (df : dataframe).

(** The text [to_csv] writes for a cell is the string itself for a string
    and [str] of the value for anything else: ASCII for a number, a boolean
    and the missing marker, and for a list its [repr], which escapes every
    character that cannot be printed.  So only a label or a string cell can
    bring a code point that UTF-8 cannot encode. *)
Definition cell_encodable (x : cell) : bool :=
  match x with
  | Some (JStr s) => forallb scalar_value s
  | _ => true
  end.

Definition encodable (df : dataframe) : bool :=
  forallb (forallb scalar_value) (columns df)
  && forallb (forallb cell_encodable) (rows df).

(** [df.to_csv(CSV_FILE, index=False, encoding="utf-8")]: the table that is
    on disk afterwards; [None] is [UnicodeEncodeError]. *)
Definition to_csv (df : dataframe) : option store :=
  if encodable df then Some (StoreTable df) else None.

(** The [if all_results:] block of [main]; [None] is the exception of
    [pd.read_csv] on a file it cannot parse, or of [to_csv]. *)
Definition write_store (csv : store) (all_results : list record) : option store :=
  match all_results with
  | [] => Some csv
  | _ =>
      let df_new := json_normalize all_results in
      match csv with
      | StoreTable df_existing =>
          let df_combined := concat df_existing df_new in
          let df_combined := reindex df_combined (sorted (columns df_combined)) in
          to_csv df_combined
      | StoreCorrupt => None
      | StoreAbsent => to_csv df_new
      end
  end.

(** ** [json.load]

    The decoder of the standard library: [scanstring] for string bodies,
    [scan_once] with [JSONArray] and [JSONObject] for values.  The recursion
    on nested values runs on fuel; [OutOfFuel] is kept apart from [Err] (the
    [JSONDecodeError]) so that the fuel can be shown to suffice. *)

Inductive outcome (A : Type) :=
  | Ok (a : A)
  | Err
  | OutOfFuel.
Arguments Ok {A} a.
Arguments Err {A}.
Arguments OutOfFuel {A}.

Definition obind {A B} (x : outcome A) (k : A → outcome B) : outcome B :=
  match x with
  | Ok a => k a
  | Err => Err
  | OutOfFuel => OutOfFuel
  end.

Definition of_option {A} (x : option A) : outcome A :=
  match x with
  | Some a => Ok a
  | None => Err
  end.

Definition is_ws (c : Z) : bool :=
  (c =? 32) || (c =? 9) || (c =? 10) || (c =? 13).

Fixpoint skip_ws (s : pystr) : pystr :=
  match s with
  | c :: s' => if is_ws c then skip_ws s' else s
  | [] => []
  end.

Definition hex_value (c : Z) : option Z :=
  if (48 <=? c) && (c <=? 57) then Some (c - 48)
  else if (97 <=? c) && (c <=? 102) then Some (c - 87)
  else if (65 <=? c) && (c <=? 70) then Some (c - 55)
  else None.

(** [_decode_uXXXX]. *)
Definition decode_hex4 (h1 h2 h3 h4 : Z) : option Z :=
  a ← hex_value h1; b ← hex_value h2; c ← hex_value h3; d ← hex_value h4;
  Some (((a * 16 + b) * 16 + c) * 16 + d).

(** The [BACKSLASH] table. *)
Definition unescape (e : Z) : option Z :=
  if e =? 34 then Some 34
  else if e =? 92 then Some 92
  else if e =? 47 then Some 47
  else if e =? 98 then Some 8
  else if e =? 102 then Some 12
  else if e =? 110 then Some 10
  else if e =? 114 then Some 13
  else if e =? 116 then Some 9
  else None.

Definition push (c : Z) (r : option (pystr * pystr)) : option (pystr * pystr) :=
  prod_map (cons c) id <$> r.

(** [py_scanstring] in strict mode, entered after the opening quote: the
    decoded string and the text after the closing quote. *)
Fixpoint scanstring (s : pystr) : option (pystr * pystr) :=
  match s with
  | [] => None
  | c :: s1 =>
      if c =? 34 then Some ([], s1)
      else if c =? 92 then
        match s1 with
        | [] => None
        | e :: s2 =>
            if e =? 117 then
              match s2 with
              | h1 :: h2 :: h3 :: h4 :: s3 =>
                  match decode_hex4 h1 h2 h3 h4 with
                  | None => None
                  | Some uni =>
                      if (55296 <=? uni) && (uni <=? 56319) then
                        match s3 with
                        | b :: s4 =>
                            match s4 with
                            | v :: s5 =>
                                if (b =? 92) && (v =? 117) then
                                  match s5 with
                                  | g1 :: g2 :: g3 :: g4 :: s6 =>
                                      match decode_hex4 g1 g2 g3 g4 with
                                      | None => None
                                      | Some uni2 =>
                                          if (56320 <=? uni2) && (uni2 <=? 57343) then
                                            push (65536 + Z.lor (Z.shiftl (uni - 55296) 10)
                                                                 (uni2 - 56320))
                                              (scanstring s6)
                                          else push uni (scanstring s3)
                                      end
                                  | _ => None
                                  end
                                else push uni (scanstring s3)
                            | [] => push uni (scanstring s3)
                            end
                        | [] => push uni (scanstring s3)
                        end
                      else push uni (scanstring s3)
                  end
              | _ => None
              end
            else
              match unescape e with
              | Some c' => push c' (scanstring s2)
              | None => None
              end
        end
      else if (0 <=? c) && (c <? 32) then None
      else push c (scanstring s1)
  end.

(** The longest prefix of digits and what follows it. *)
Fixpoint span_digits (s : pystr) : pystr * pystr :=
  match s with
  | c :: s' =>
      if is_digit c then let '(ds, r) := span_digits s' in (c :: ds, r)
      else ([], s)
  | [] => ([], [])
  end.

Definition digits_value (ds : pystr) : Z :=
  foldl (λ acc c, acc * 10 + (c - 48)) 0 ds.

(** The integer group of [NUMBER_RE]: a zero, or a non-zero digit and the
    digits after it. *)
Definition match_integer (s : pystr) : option (pystr * pystr) :=
  match s with
  | c :: s' =>
      if c =? 48 then Some ([c], s')
      else if is_digit c then let '(ds, r) := span_digits s' in Some (c :: ds, r)
      else None
  | [] => None
  end.

(** The optional fraction group: a dot and at least one digit. *)
Definition match_frac (s : pystr) : pystr * pystr :=
  match s with
  | c :: s' =>
      if c =? 46 then
        match span_digits s' with
        | ([], _) => ([], s)
        | (ds, r) => (c :: ds, r)
        end
      else ([], s)
  | [] => ([], s)
  end.

(** The optional exponent group: e or E, an optional sign, at least one
    digit. *)
Definition match_exp (s : pystr) : pystr * pystr :=
  match s with
  | c :: s' =>
      if (c =? 101) || (c =? 69) then
        match s' with
        | g :: s'' =>
            if (g =? 45) || (g =? 43) then
              match span_digits s'' with
              | ([], _) => ([], s)
              | (ds, r) => (c :: g :: ds, r)
              end
            else
              match span_digits s' with
              | ([], _) => ([], s)
              | (ds, r) => (c :: ds, r)
              end
        | [] => ([], s)
        end
      else ([], s)
  | [] => ([], s)
  end.

(** [match_number] and the conversion of its groups. *)
Definition scan_number {rt : PyRuntime} (s : pystr) : option (json * pystr) :=
  let '(sign, s0) :=
    match s with
    | c :: s' => if c =? 45 then ([c], s') else ([], s)
    | [] => ([], s)
    end in
  '(integer, s1) ← match_integer s0;
  let '(frac, s2) := match_frac s1 in
  let '(exp, s3) := match_exp s2 in
  match frac, exp with
  | [], [] =>
      Some (JInt (match sign with [] => digits_value integer
                  | _ => - digits_value integer end), s3)
  | _, _ => Some (JFloat (float_of_text (sign ++ integer ++ frac ++ exp)), s3)
  end.

(** [s[idx:idx+len(word)] == word]: the text after [word] when it matches. *)
Fixpoint strip_prefix (word s : pystr) : option pystr :=
  match word, s with
  | [], _ => Some s
  | w :: word', c :: s' => if w =? c then strip_prefix word' s' else None
  | _ :: _, [] => None
  end.

(** The constants and numbers of [scan_once]. *)
Definition scan_scalar {rt : PyRuntime} (s : pystr) : option (json * pystr) :=
  match strip_prefix (u "null") s with
  | Some r => Some (JNull, r)
  | None =>
  match strip_prefix (u "true") s with
  | Some r => Some (JBool true, r)
  | None =>
  match strip_prefix (u "false") s with
  | Some r => Some (JBool false, r)
  | None =>
  match scan_number s with
  | Some res => Some res
  | None =>
  match strip_prefix (u "NaN") s with
  | Some r => Some (JFloat S754_nan, r)
  | None =>
  match strip_prefix (u "Infinity") s with
  | Some r => Some (JFloat (S754_infinity false), r)
  | None =>
  match strip_prefix (u "-Infinity") s with
  | Some r => Some (JFloat (S754_infinity true), r)
  | None => None
  end end end end end end end.

Fixpoint scan_once {rt : PyRuntime} (fuel : nat) (s : pystr) : outcome (json * pystr) :=
  match fuel with
  | O => OutOfFuel
  | S fuel =>
      match s with
      | [] => Err
      | c :: s' =>
          if c =? 34 then
            of_option (prod_map JStr id <$> scanstring s')
          else if c =? 123 then
            match skip_ws s' with
            | c1 :: r1 =>
                if c1 =? 125 then Ok (JDict [], r1)
                else obind (object_items fuel (skip_ws s') [])
                       (λ res, Ok (JDict res.1, res.2))
            | [] => Err
            end
          else if c =? 91 then
            match skip_ws s' with
            | c1 :: r1 =>
                if c1 =? 93 then Ok (JList [], r1)
                else obind (array_items fuel (skip_ws s'))
                       (λ res, Ok (JList res.1, res.2))
            | [] => Err
            end
          else of_option (scan_scalar s)
      end
  end
(** The loop of [JSONArray], entered at the first character of a value. *)
with array_items {rt : PyRuntime} (fuel : nat) (s : pystr) : outcome (list json * pystr) :=
  match fuel with
  | O => OutOfFuel
  | S fuel =>
      obind (scan_once fuel s) (λ res,
        match skip_ws res.2 with
        | c :: r =>
            if c =? 93 then Ok ([res.1], r)
            else if c =? 44 then
              obind (array_items fuel (skip_ws r))
                (λ more, Ok (res.1 :: more.1, more.2))
            else Err
        | [] => Err
        end)
  end
(** The loop of [JSONObject], entered at the quote that opens a key; [acc]
    is the dict built so far. *)
with object_items {rt : PyRuntime} (fuel : nat) (s : pystr) (acc : record)
    : outcome (record * pystr) :=
  match fuel with
  | O => OutOfFuel
  | S fuel =>
      match s with
      | q :: s0 =>
          if q =? 34 then
            match scanstring s0 with
            | None => Err
            | Some (key, r0) =>
                match skip_ws r0 with
                | colon :: r1 =>
                    if colon =? 58 then
                      obind (scan_once fuel (skip_ws r1)) (λ res,
                        let acc' := dict_set key res.1 acc in
                        match skip_ws res.2 with
                        | c :: r =>
                            if c =? 125 then Ok (acc', r)
                            else if c =? 44 then object_items fuel (skip_ws r) acc'
                            else Err
                        | [] => Err
                        end)
                    else Err
                | [] => Err
                end
            end
          else Err
      | [] => Err
      end
  end.

(** [json.loads(s)]: no byte-order mark, one value between optional
    whitespace, nothing after it. *)
Definition json_loads {rt : PyRuntime} (s : pystr) : outcome json :=
  match s with
  | 65279 :: _ => Err
  | _ =>
      obind (scan_once (S (2 * length s)) (skip_ws s)) (λ res,
        match skip_ws res.2 with
        | [] => Ok res.1
        | _ => Err
        end)
  end.

(** ** Progress tracking *)

(** What is on disk at [PROGRESS_FILE]: bytes that are not UTF-8, or text. *)
Inductive file_content :=
  | Undecodable
  | Text (t : pystr).

(** Writing text to a file opened with [encoding="utf-8"]; [None] is
    [UnicodeEncodeError]. *)
Definition write_text (t : pystr) : option file_content :=
  if forallb scalar_value t then Some (Text t) else None.

(** [set(x)]; [None] is [TypeError] (not iterable, or an unhashable
    element).  Python also identifies [True] with [1] and a float with the
    int it equals; the model keeps such elements apart. *)
Definition py_set (v : json) : option (gset atom) :=
  items ← py_iter v;
  atoms ← mapM json_atom items;
  Some (list_to_set atoms).

(** [progress] is [None] when [PROGRESS_FILE] does not exist. *)
Definition load_progress {rt : PyRuntime} (progress : option file_content) : gset atom :=
  match progress with
  | Some (Text t) =>
      match json_loads t with
      | Ok v =>
          match py_set v with
          | Some s => s
          | None => ∅
          end
      | _ => ∅
      end
  | Some Undecodable => ∅
  | None => ∅
  end.

Definition save_progress {rt : PyRuntime} (processed_urls : gset atom) : option file_content :=
  write_text (json_dumps indent2_opts (JList (atom_json <$> set_order processed_urls))).

(** ** Main workflow: one run *)

Record files := { progress_file : option file_content; csv_file : store }.

(** [main] after the sitemap has been turned into [endpoints]; [None] is an
    exception that ends the run. *)
Definition main {rt : PyRuntime} (w : world) (endpoints : list endpoint) (fs : files)
    : option files :=
  let processed_urls := load_progress (progress_file fs) in
  let batch := next_batch BATCH_SIZE endpoints processed_urls in
  match batch with
  | [] => Some fs
  | _ =>
      let '(all_results, processed_urls) := fetch_loop w 0 batch [] processed_urls in
      csv ← write_store (csv_file fs) all_results;
      progress ← save_progress processed_urls;
      Some {| progress_file := Some progress; csv_file := csv |}
  end.

(** ** Sitemap and endpoint extraction *)

(** An element of the parsed sitemap ([xml.etree.ElementTree]): its tag, with
    the namespace in braces when it has one, its text and its children. *)
Unset Elimination Schemes.
Inductive element :=
  | Element (tag : pystr) (text : option pystr) (children : list element).
Set Elimination Schemes.

Definition tag (e : element) : pystr := let 'Element t _ _ := e in t.
Definition text (e : element) : option pystr := let 'Element _ x _ := e in x.
Definition children (e : element) : list element := let 'Element _ _ cs := e in cs.

(** [s[-len(suffix):] == suffix]. *)
Definition ends_with (suffix s : pystr) : bool :=
  bool_decide (drop (length s - length suffix) s = suffix).

(** The tag test of the path step [{*}name]: the name in any namespace or in
    none. *)
Definition tag_matches (name el_tag : pystr) : bool :=
  bool_decide (el_tag = name) || ends_with (125 :: name) el_tag.

(** [elem.iter()]: the element and its descendants in document order. *)
Fixpoint iter (e : element) : list element :=
  e :: flat_map iter (children e).

(** [root.findall(".//{*}url")]: the descendants of the root named [url]. *)
Definition findall_url (root : element) : list element :=
  filter (λ e, tag_matches (u "url") (tag e) = true) (flat_map iter (children root)).

(** [el.find("{*}name")]: the first child with that name. *)
Definition find (name : pystr) (el : element) : option element :=
  head (filter (λ e, tag_matches name (tag e) = true) (children el)).

(** One round of the loop of [fetch_sitemap]: the entry of a [url] element,
    kept when its [url] is a non-empty string. *)
Definition sitemap_entry (url_el : element) : option endpoint :=
  let loc := find (u "loc") url_el in
  let lastmod := find (u "lastmod") url_el in
  match loc ≫= text with
  | Some (c :: s) => Some {| url := c :: s; lastmod := lastmod ≫= text |}
  | _ => None
  end.

(** [fetch_sitemap], given the document the response parses to; [None] is
    the exception of the request, the status check or the XML parser. *)
Definition fetch_sitemap (response : option element) : option (list endpoint) :=
  root ← response;
  Some (omap sitemap_entry (findall_url root)).

(** A product type that stands for itself in a pattern: letters, digits,
    hyphens and underscores, none of which [re] reads as an operator.  The
    default [mobiles] is one. *)
Definition word_char (c : Z) : bool :=
  ((48 <=? c) && (c <=? 57)) || ((65 <=? c) && (c <=? 90))
  || ((97 <=? c) && (c <=? 122)) || (c =? 45) || (c =? 95).

Definition plain_word (s : pystr) : bool := forallb word_char s.

(** The pattern ["/" + PRODUCT_TYPE + "/[^/]+$"] tried at the start of [s],
    for a product type that is a plain word: the slug takes every character
    up to the end, so the match is all of [s].  The source puts the product
    type into the pattern as it is; one with operators of [re] in it is
    outside this model, and every property below is stated for plain
    words. *)
Definition matches_here (product_type s : pystr) : bool :=
  match strip_prefix (47 :: product_type ++ [47]) s with
  | Some slug => negb (bool_decide (slug = [])) && forallb (λ c, negb (c =? 47)) slug
  | None => false
  end.

(** [re.search]: the match at the leftmost position that has one. *)
Fixpoint re_search (product_type s : pystr) : option pystr :=
  if matches_here product_type s then Some s
  else
    match s with
    | [] => None
    | _ :: s' => re_search product_type s'
    end.

Definition extract_endpoint (product_type : pystr) (entry : endpoint) : option endpoint :=
  match re_search product_type (url entry) with
  | Some m => Some {| url := m; lastmod := lastmod entry |}
  | None => None
  end.

(** [[extract_endpoint(u) for u in urls if extract_endpoint(u)]]. *)
Definition endpoints_of (product_type : pystr) (urls : list endpoint) : list endpoint :=
  omap (extract_endpoint product_type) urls.

(** ** Reference definitions used to state the properties *)

(** The encoder as the specification words it: the 64-symbol alphabet and
    the image of one character of the JSON text. *)
Definition spec_alphabet : pystr :=
  u "0123456789ABCDEFGHIJKLMNOPQRSTUVWXYZabcdefghijklmnopqrstuvwxyz-_".

Definition spec_symbol (i : Z) : Z := nth (Z.to_nat i) spec_alphabet 0.

Definition spec_encode_char (c : Z) : pystr :=
  if 127 <? c then [c]
  else
    let r := c mod 95 in
    if r <? 64 then [spec_symbol r] else [46; spec_symbol (Z.land r 63)].

(** The outcome of the [try] body for every entry of a batch whose first
    entry is handled in iteration [i]. *)
Definition attempts {rt : PyRuntime} (w : world) (i : nat) (batch : list endpoint)
    : list (option record) :=
  imap (λ j ep, fetch_and_parse w (i + j) ep) batch.

(** Induction on JSON values, with the hypothesis for every element of a
    list and every value of a dict. *)
Definition json_ind (P : json → Prop)
    (Hnull : P JNull) (Hbool : ∀ b, P (JBool b)) (Hint : ∀ z, P (JInt z))
    (Hfloat : ∀ f, P (JFloat f)) (Hstr : ∀ s, P (JStr s))
    (Hlist : ∀ l, Forall P l → P (JList l))
    (Hdict : ∀ d, Forall (λ kv, P kv.2) d → P (JDict d)) : ∀ v, P v :=
  fix go (v : json) : P v :=
    match v with
    | JNull => Hnull
    | JBool b => Hbool b
    | JInt z => Hint z
    | JFloat f => Hfloat f
    | JStr s => Hstr s
    | JList l =>
        Hlist l ((fix elems (l : list json) : Forall P l :=
                    match l with
                    | [] => @List.Forall_nil _ _
                    | x :: l' => @List.Forall_cons _ P x l' (go x) (elems l')
                    end) l)
    | JDict d =>
        Hdict d ((fix membs (d : list (pystr * json)) : Forall (λ kv, P kv.2) d :=
                    match d with
                    | [] => @List.Forall_nil _ _
                    | kv :: d' => @List.Forall_cons _ (λ kv, P kv.2) kv d' (go kv.2) (membs d')
                    end) d)
    end.

(** A JSON document proper: no NaN and no infinity, which the JSON grammar
    has no text for. *)
Fixpoint json_document (v : json) : bool :=
  match v with
  | JFloat f => is_finite f
  | JList l => forallb json_document l
  | JDict d => forallb (λ kv, json_document (snd kv)) d
  | JNull | JBool _ | JInt _ | JStr _ => true
  end.

(** The JSON grammar (RFC 8259): whitespace, string bodies, values. *)
Definition ws_text (w : pystr) : Prop := Forall (λ c, is_ws c = true) w.

Definition hex_digit (c : Z) : Prop := is_Some (hex_value c).

Inductive string_body : pystr → Prop :=
  | body_end : string_body []
  | body_char c s :
      c ≠ 34 → c ≠ 92 → ¬ (0 ≤ c < 32) → string_body s → string_body (c :: s)
  | body_escape e s :
      e ∈ [34; 92; 47; 98; 102; 110; 114; 116] → string_body s →
      string_body (92 :: e :: s)
  | body_unicode h1 h2 h3 h4 s :
      hex_digit h1 → hex_digit h2 → hex_digit h3 → hex_digit h4 →
      string_body s → string_body (92 :: 117 :: h1 :: h2 :: h3 :: h4 :: s).

Inductive value_text : pystr → Prop :=
  | text_null : value_text (u "null")
  | text_true : value_text (u "true")
  | text_false : value_text (u "false")
  | text_number t : number_text t → value_text t
  | text_string b : string_body b → value_text (34 :: b ++ [34])
  | text_array_empty w : ws_text w → value_text (91 :: w ++ [93])
  | text_array els : elements_text els → value_text (91 :: els ++ [93])
  | text_object_empty w : ws_text w → value_text (123 :: w ++ [125])
  | text_object ms : members_text ms → value_text (123 :: ms ++ [125])
with elements_text : pystr → Prop :=
  | elements_last w1 v w2 :
      ws_text w1 → value_text v → ws_text w2 → elements_text (w1 ++ v ++ w2)
  | elements_more w1 v w2 rest :
      ws_text w1 → value_text v → ws_text w2 → elements_text rest →
      elements_text (w1 ++ v ++ w2 ++ 44 :: rest)
with members_text : pystr → Prop :=
  | members_last w1 k w2 w3 v w4 :
      ws_text w1 → string_body k → ws_text w2 → ws_text w3 → value_text v →
      ws_text w4 →
      members_text (w1 ++ (34 :: k ++ [34]) ++ w2 ++ 58 :: w3 ++ v ++ w4)
  | members_more w1 k w2 w3 v w4 rest :
      ws_text w1 → string_body k → ws_text w2 → ws_text w3 → value_text v →
      ws_text w4 → members_text rest →
      members_text (w1 ++ (34 :: k ++ [34]) ++ w2 ++ 58 :: w3 ++ v ++ w4 ++ 44 :: rest).

(** JSON array text: the array production of the grammar. *)
Definition json_array_text (t : pystr) : Prop :=
  ∃ body, t = 91 :: body ++ [93] ∧ (ws_text body ∨ elements_text body).

(** Induction over the three productions together. *)
Scheme value_text_min := Minimality for value_text Sort Prop
  with elements_text_min := Minimality for elements_text Sort Prop
  with members_text_min := Minimality for members_text Sort Prop.

Combined Scheme json_text_min from value_text_min, elements_text_min, members_text_min.

(** A necessary condition for JSON text: outside its strings it holds only
    the characters of the grammar's tokens. *)
Inductive scan_state := Outside | Inside | Escaped.

Definition token_char (c : Z) : bool :=
  is_ws c || is_digit c
  || bool_decide (c ∈ u "[]{},:-+.eE" ++ u "nulltruefalse").

Fixpoint tokens_only (st : scan_state) (t : pystr) : bool :=
  match t with
  | [] => true
  | c :: t' =>
      match st with
      | Outside =>
          if c =? 34 then tokens_only Inside t'
          else token_char c && tokens_only Outside t'
      | Inside =>
          if c =? 34 then tokens_only Outside t'
          else if c =? 92 then tokens_only Escaped t'
          else tokens_only Inside t'
      | Escaped => tokens_only Inside t'
      end
  end.







(** The [item] that [parse_product] works on, for a dict [data]. *)
Definition item_of (data : json) : json :=
  match data with
  | JDict d => default (JDict []) (dict_get (u "item") d)
  | _ => JDict []
  end.

(** The member of a dict-valued [v] under [k], [None] when [v] is not a dict
    or has no such key. *)
Definition member (k : pystr) (v : json) : option json :=
  match v with
  | JDict d => dict_get k d
  | _ => None
  end.

(** The record after [result.update], given the values of the literal. *)
Definition core_update {rt : PyRuntime} (result : record)
    (name brand price price_drop price_drop_amount : json)
    (lastmod : option pystr) (related : list json) : record :=
  dict_update result
    [(u "Name", name);
     (u "Brand", brand);
     (u "Price", price);
     (u "Price Drop", price_drop);
     (u "Price Drop Amount", price_drop_amount);
     (u "Last modified", lastmod_value lastmod);
     (u "Related Items", JStr (json_dumps plain_opts (JList related)))].

(** The nested related-products list of [data], empty when it is absent. *)
Definition related_products (data : json) : list json :=
  default [] ((member (u "relatedItems") (item_of data) ≫= member (u "products"))
                ≫= py_iter).

(** Lexicographic order on strings, and a header in that order. *)
Inductive lex_le : pystr → pystr → Prop :=
  | lex_nil b : lex_le [] b
  | lex_lt x y a b : x < y → lex_le (x :: a) (y :: b)
  | lex_eq x a b : lex_le a b → lex_le (x :: a) (x :: b).

Definition lexicographic (labels : list pystr) : Prop := Sorted lex_le labels.

(** The frame [main] writes when a table is already stored. *)
Definition merged (df_existing df_new : dataframe) : dataframe :=
  let df_combined := concat df_existing df_new in
  reindex df_combined (sorted (columns df_combined)).

(** A string between its quotes, as [py_encode_basestring] writes it. *)
Definition quoted (s : pystr) : pystr := 34 :: flat_map escape_char s ++ [34].

(** A string of the form [/<product type>/<slug>]: the slug is not empty and
    holds no slash. *)
Definition endpoint_path (product_type m : pystr) : Prop :=
  ∃ slug, m = 47 :: product_type ++ 47 :: slug ∧ slug ≠ [] ∧ 47 ∉ slug.

(** A value without floats, such as the descriptor of [fetch_product_data]. *)
Fixpoint float_free (v : json) : bool :=
  match v with
  | JFloat _ => false
  | JList l => forallb float_free l
  | JDict d => forallb (λ kv, float_free (snd kv)) d
  | JNull | JBool _ | JInt _ | JStr _ => true
  end.

(** A printable ASCII character, and a character of the key alphabet or a
    dot. *)
Definition printable (c : Z) : Prop := 32 ≤ c ≤ 126.

Definition key_char (c : Z) : Prop := c ∈ Aa ∨ c = 46.

(** The descriptor [fetch_product_data] encodes. *)
Definition payload (endpoint : pystr) (t : Z) : json :=
  JDict [(u "url", JStr endpoint); (u "data", JDict []);
         (u "t", JInt t); (u "st", JInt (t - 5000))].

(** The (column, description) pairs the two loops of [parse_product] write,
    in the order they write them: one for every titled spec of every titled
    category. *)
Definition spec_pair {rt : PyRuntime} (title spec : json) : list (pystr * json) :=
  match spec with
  | JDict d =>
      let spec_title := default JNull (dict_get (u "title") d) in
      if truthy spec_title then
        [(col_name title spec_title, default JNull (dict_get (u "description") d))]
      else []
  | _ => []
  end.

Definition category_pairs {rt : PyRuntime} (category : json) : list (pystr * json) :=
  match category with
  | JDict d =>
      let title := default JNull (dict_get (u "title") d) in
      if truthy title then
        flat_map (spec_pair title)
          (default [] (py_iter (default (JList []) (dict_get (u "items") d))))
      else []
  | _ => []
  end.

Definition spec_pairs {rt : PyRuntime} (data : json) : list (pystr * json) :=
  flat_map category_pairs
    (default [] (py_iter (default (JList []) (member (u "fullSpecs") (item_of data))))).

(** A frame is well formed when its labels are distinct and every row has
    one cell per label. *)
Definition well_formed (df : dataframe) : Prop :=
  NoDup (columns df) ∧ Forall (λ row, length row = length (columns df)) (rows df).

(** ** Proof steps *)

(** Closes a goal [Forall printable l] for a list of literals and
    variables whose members are in the range by assumption. *)
Ltac printable_list :=
  try match goal with
      | |- Forall printable ?l =>
          let l' := eval vm_compute in l in change (Forall printable l')
      end;
  repeat first [apply List.Forall_nil | apply List.Forall_cons];
  try assumption; unfold printable, digit_char; lia.

(** Brings a text to a right-nested sequence of parts. *)
Ltac flat_text := repeat first [rewrite <- app_assoc | progress cbn [app]].

(** ** Sample inputs *)

(** A runtime to evaluate the definitions on examples.  It prints every
    float as [0.0] and lists a set in the order of [elements]; the examples
    below hold no float, so nothing depends on the first choice. *)
Definition sample_runtime : PyRuntime.
Proof.
  refine {| float_repr := λ _, u "0.0";
            float_of_text := λ _, S754_zero false;
            container_repr := λ _, u "[...]";
            set_order := elements |}.
  - intros _ _. exists [], [48], [46; 48], [].
    split; [reflexivity|]. split; [by left|]. split; [by left|].
    split; [|by left]. right. exists 48, []. split; [reflexivity|].
    by repeat constructor.
  - reflexivity.
Defined.

(** The request descriptor of [fetch_product_data] for one endpoint. *)
Definition sample_payload : json :=
  JDict [(u "url", JStr (u "/mobiles/A_b")); (u "data", JDict []);
         (u "t", JInt 5000); (u "st", JInt 0)].

(** Three feed entries, and a world in which the second request fails. *)
Definition sample_feed : list endpoint :=
  [{| url := u "/mobiles/a"; lastmod := Some (u "2024-01-01") |};
   {| url := u "/mobiles/b"; lastmod := None |};
   {| url := u "/mobiles/c"; lastmod := Some (u "2024-01-03") |}].

Definition sample_document : json :=
  JDict [(u "item",
          JDict [(u "name", JStr (u "Phone"));
                 (u "brand", JDict [(u "name", JStr (u "Acme"))]);
                 (u "price", JInt 9999);
                 (u "fullSpecs",
                  JList [JDict [(u "title", JStr (u "General"));
                                (u "items",
                                 JList [JDict [(u "title", JStr (u "SIM"));
                                               (u "description", JStr (u "Dual"))]])]]);
                 (u "relatedItems",
                  JDict [(u "products",
                          JList [JDict [(u "name", JStr (u "Other"));
                                        (u "price", JInt 10)]])])])].

Definition sample_world : world :=
  {| clock := λ i, 1700000000000 + Z.of_nat i;
     session_get := λ i _, if (i =? 1)%nat then None else Some sample_document |}.


(** The text [json.dumps] gives for the related products of
    [sample_document]. *)
Definition sample_related_text : pystr :=
  Eval vm_compute in
    json_dumps (rt := sample_runtime) plain_opts
      (JList [JDict [(u "Name", JStr (u "Other")); (u "Price", JInt 10)]]).

(** The record [parse_product] returns for [sample_document]. *)
Definition sample_record : record :=
  Eval vm_compute in
    default [] (parse_product (rt := sample_runtime) sample_document
                  (Some (u "2024-01-01"))).

(** A sitemap with three [url] elements: one complete, one whose [loc] has
    no text, one outside the namespace whose address is no product page. *)
Definition sample_sitemap : element :=
  Element (u "{http://www.sitemaps.org/schemas/sitemap/0.9}urlset") None
    [Element (u "{http://www.sitemaps.org/schemas/sitemap/0.9}url") None
       [Element (u "{http://www.sitemaps.org/schemas/sitemap/0.9}loc")
          (Some (u "https://www.smartprix.com/mobiles/a-b")) [];
        Element (u "{http://www.sitemaps.org/schemas/sitemap/0.9}lastmod")
          (Some (u "2024-01-01")) []];
     Element (u "{http://www.sitemaps.org/schemas/sitemap/0.9}url") None
       [Element (u "{http://www.sitemaps.org/schemas/sitemap/0.9}loc") None []];
     Element (u "url") None
       [Element (u "loc") (Some (u "https://www.smartprix.com/mobiles")) []]].

Definition sample_entry : endpoint :=
  {| url := u "https://www.smartprix.com/mobiles/a-b";
     lastmod := Some (u "2024-01-01") |}.

(** The progress file of a run that processed the whole sample feed. *)
Definition sample_progress : option file_content :=
  Eval vm_compute in
    save_progress (rt := sample_runtime)
      (list_to_set (AStr <$> [u "/mobiles/a"; u "/mobiles/b"; u "/mobiles/c"])).

Definition empty_files : files := {| progress_file := None; csv_file := StoreAbsent |}.

(** The files after one run on the sample feed from empty files. *)
Definition sample_files_after : files :=
  Eval vm_compute in
    default empty_files (main (rt := sample_runtime) sample_world sample_feed empty_files).




(** A response body in which a related product has the price [NaN], the
    document the decoder reads from it, and the text [json.dumps] writes for
    the related products. *)
Definition nan_text : pystr :=
  [123; 34] ++ u "item" ++ [34] ++ u ": {" ++ [34] ++ u "relatedItems" ++ [34]
    ++ u ": {" ++ [34] ++ u "products" ++ [34] ++ u ": [{" ++ [34] ++ u "price"
    ++ [34] ++ u ": NaN}]}}}".

Definition nan_document : json :=
  JDict [(u "item",
          JDict [(u "relatedItems",
                  JDict [(u "products",
                          JList [JDict [(u "price", JFloat S754_nan)]])])])].

Definition nan_related_text : pystr :=
  [91; 123; 34] ++ u "Name" ++ [34] ++ u ": null, " ++ [34] ++ u "Price" ++ [34]
    ++ u ": NaN}]".

(** * Theorems *)

Local Open Scope list_scope.

(** ** Encoder *)

Lemma Aa_index (i : Z) : 0 ≤ i < 64 → py_index Aa i = Some (spec_symbol i).
Proof.
  intros Hi. unfold py_index, spec_symbol.
  destruct (Z.leb_spec 0 i) as [_|]; [|lia].
  destruct (lookup_lt_is_Some_2 Aa (Z.to_nat i)) as [a Ha].
  { change (length Aa) with 64%nat. lia. }
  rewrite Ha. f_equal. symmetry. change spec_alphabet with Aa.
  by apply nth_lookup_Some.
Qed.

Lemma mask_63_range (r : Z) : 0 ≤ r → 0 ≤ Z.land r 63 < 64.
Proof.
  intros Hr. change 63 with (Z.ones 6). rewrite Z.land_ones by lia.
  apply Z.mod_pos_bound. reflexivity.
Qed.

Lemma Sa_loop_spec (t n : pystr) :
  Sa_loop t n = Some (n ++ flat_map spec_encode_char t).
Proof.
  revert n. induction t as [|ch t IH]; intros n; simpl.
  - by rewrite app_nil_r.
  - unfold spec_encode_char. destruct (127 <? ch).
    + rewrite IH. by rewrite <- app_assoc.
    + pose proof (Z.mod_pos_bound ch 95 eq_refl) as Hr.
      destruct (Z.ltb_spec (ch mod 95) 64) as [Hlt|Hge].
      * rewrite Aa_index by lia. simpl. rewrite IH. by rewrite <- app_assoc.
      * rewrite Aa_index by (apply mask_63_range; lia). simpl.
        rewrite IH. by rewrite <- !app_assoc.
Qed.

(** C1. For a truthy descriptor [Sa] returns the character 1 followed by the
    images, in order, of the characters of the compact JSON text: the
    character itself above code point 127, otherwise the alphabet symbol at
    index [c mod 95] when that is below 64 and a dot followed by the symbol
    at index [(c mod 95) AND 63] when it is not.  For a falsy descriptor it
    returns the empty string.  In both cases it returns: no index leaves the
    alphabet. *)
Theorem Sa_encodes {rt : PyRuntime} (e : json) :
  (truthy e = true →
     Sa e = Some (49 :: flat_map spec_encode_char (json_dumps compact_opts e)))
  ∧ (truthy e = false → Sa e = Some []).
Proof.
  unfold Sa. split; intros ->; simpl; [|reflexivity].
  by rewrite Sa_loop_spec.
Qed.

Lemma Sa_encodes_witness :
  truthy sample_payload = true
  ∧ Sa (rt := sample_runtime) sample_payload
    = Some (u "1SYMJDYwYlEG3AD6Kl.103YiY52L2YwSUiYLYwrmmmiYKLYwmU").
Proof.
  split; [reflexivity|].
  rewrite (proj1 (Sa_encodes (rt := sample_runtime) sample_payload) eq_refl).
  reflexivity.
Defined.

(** ** Batch selection *)

Lemma py_slice_to_nat {A} (l : list A) (n : nat) :
  py_slice_to l (Z.of_nat n) = take n l.
Proof.
  unfold py_slice_to. destruct (Z.leb_spec 0 (Z.of_nat n)); [|lia].
  by rewrite Nat2Z.id.
Qed.

Lemma filter_none {A} (P : A → Prop) `{!∀ x, Decision (P x)} (l : list A) :
  (∀ x, x ∈ l → ¬ P x) → filter P l = [].
Proof.
  intros Hall. destruct (filter P l) as [|x k] eqn:E; [reflexivity|].
  assert (x ∈ filter P l) as Hx by (rewrite E; left).
  apply list_elem_of_filter in Hx as [HP Hx]. by destruct (Hall x Hx).
Qed.

(** C2. For every feed, processed set and limit, the batch is the first
    at-most-[limit] entries of the feed whose identifier is not in the
    processed set, in the order of the feed: no entry of it is processed, it
    is no longer than the limit, it is a subsequence of the feed, and it is
    the empty list when every entry is processed (so also for the empty
    feed).  [main] takes it at [BATCH_SIZE]. *)
Theorem next_batch_spec (endpoints : list endpoint) (processed_urls : gset atom)
    (limit : nat) :
  let batch := next_batch (Z.of_nat limit) endpoints processed_urls in
  batch = take limit (filter (λ ep, AStr (url ep) ∉ processed_urls) endpoints)
  ∧ (∀ ep, ep ∈ batch → ep ∈ endpoints ∧ AStr (url ep) ∉ processed_urls)
  ∧ (length batch ≤ limit)%nat
  ∧ batch `sublist_of` endpoints
  ∧ ((∀ ep, ep ∈ endpoints → AStr (url ep) ∈ processed_urls) → batch = [])
  ∧ next_batch BATCH_SIZE endpoints processed_urls
    = take 100 (filter (λ ep, AStr (url ep) ∉ processed_urls) endpoints).
Proof.
  intros batch. subst batch. unfold next_batch, to_process.
  rewrite py_slice_to_nat.
  set (unprocessed := filter _ endpoints).
  assert (Hsub : take limit unprocessed `sublist_of` endpoints).
  { etrans; [apply sublist_take|]. apply sublist_filter. }
  split; [reflexivity|]. split; [|split; [|split; [|split]]].
  - intros ep Hep.
    assert (ep ∈ unprocessed) as Hin
      by (eapply elem_of_sublist; [exact Hep|apply sublist_take]).
    apply list_elem_of_filter in Hin. tauto.
  - rewrite length_take. lia.
  - exact Hsub.
  - intros Hall. replace unprocessed with (@nil endpoint); [by rewrite take_nil|].
    symmetry. apply filter_none. intros ep Hep Hnot. exact (Hnot (Hall ep Hep)).
  - change BATCH_SIZE with (Z.of_nat 100). apply py_slice_to_nat.
Qed.

Lemma next_batch_spec_witness :
  (∀ ep, ep ∈ sample_feed → AStr (url ep) ∈
      (list_to_set (AStr <$> [u "/mobiles/a"; u "/mobiles/b"; u "/mobiles/c"]) : gset atom))
  ∧ next_batch (Z.of_nat 2) sample_feed
      (list_to_set (AStr <$> [u "/mobiles/a"; u "/mobiles/b"; u "/mobiles/c"])) = [].
Proof.
  assert (H : ∀ ep, ep ∈ sample_feed → AStr (url ep) ∈
      (list_to_set (AStr <$> [u "/mobiles/a"; u "/mobiles/b"; u "/mobiles/c"]) : gset atom)).
  { intros ep Hep. unfold sample_feed in Hep.
    repeat (apply elem_of_cons in Hep as [->|Hep]); [..|by apply elem_of_nil in Hep];
      simpl; set_solver. }
  split; [exact H|].
  exact (proj1 (proj2 (proj2 (proj2 (proj2 (next_batch_spec sample_feed _ 2))))) H).
Defined.

(** A negative bound counts from the end, as in Python; the batch size of
    [main] is a count, and the batch is stated for counts. *)
Example py_slice_to_negative : py_slice_to [1; 2; 3] (-1) = [1; 2].
Proof. reflexivity. Qed.

(** [main] stops before any fetch and writes nothing when every endpoint of
    the feed is already processed. *)
Lemma main_nothing_to_do {rt : PyRuntime} (w : world) (endpoints : list endpoint)
    (fs : files) :
  (∀ ep, ep ∈ endpoints → AStr (url ep) ∈ load_progress (progress_file fs)) →
  main w endpoints fs = Some fs.
Proof.
  intros Hall. unfold main, next_batch, to_process.
  rewrite filter_none; [reflexivity|].
  intros ep Hep Hnot. exact (Hnot (Hall ep Hep)).
Qed.

(** Otherwise [main] runs the fetch loop on the batch, writes the store and
    then the progress file. *)
Lemma main_run {rt : PyRuntime} (w : world) (endpoints : list endpoint) (fs : files) :
  let processed_urls := load_progress (progress_file fs) in
  let batch := next_batch BATCH_SIZE endpoints processed_urls in
  batch ≠ [] →
  main w endpoints fs
  = (csv ← write_store (csv_file fs) (fetch_loop w 0 batch [] processed_urls).1;
     progress ← save_progress (fetch_loop w 0 batch [] processed_urls).2;
     Some {| progress_file := Some progress; csv_file := csv |}).
Proof.
  intros processed_urls batch Hne. unfold main.
  fold processed_urls. fold batch.
  destruct batch as [|ep rest]; [done|].
  by destruct (fetch_loop w 0 (ep :: rest) [] processed_urls).
Qed.

(** ** The fetch loop *)

Lemma fetch_loop_cons_fail {rt : PyRuntime} w i ep rest res pr :
  fetch_and_parse w i ep = None →
  fetch_loop w i (ep :: rest) res pr = fetch_loop w (S i) rest res pr.
Proof. intros H. simpl. by rewrite H. Qed.

Lemma fetch_loop_cons_ok {rt : PyRuntime} w i ep rest res pr parsed :
  fetch_and_parse w i ep = Some parsed →
  fetch_loop w i (ep :: rest) res pr
  = fetch_loop w (S i) rest (res ++ [parsed]) (pr ∪ {[AStr (url ep)]}).
Proof. intros H. simpl. by rewrite H. Qed.

Lemma attempts_cons {rt : PyRuntime} w i ep rest :
  attempts w i (ep :: rest) = fetch_and_parse w i ep :: attempts w (S i) rest.
Proof.
  unfold attempts. simpl. rewrite Nat.add_0_r. f_equal.
  apply imap_ext. intros j x _. simpl. f_equal. lia.
Qed.

Lemma fetch_loop_results {rt : PyRuntime} w i batch res pr :
  (fetch_loop w i batch res pr).1 = res ++ omap id (attempts w i batch).
Proof.
  revert i res pr. induction batch as [|ep rest IH]; intros i res pr.
  - simpl. by rewrite app_nil_r.
  - rewrite attempts_cons. simpl.
    destruct (fetch_and_parse w i ep) as [parsed|]; simpl; rewrite IH.
    + by rewrite <- app_assoc.
    + reflexivity.
Qed.

Lemma fetch_loop_processed {rt : PyRuntime} w i batch res pr a :
  a ∈ (fetch_loop w i batch res pr).2
  ↔ a ∈ pr ∨ ∃ j ep parsed,
      batch !! j = Some ep ∧ fetch_and_parse w (i + j) ep = Some parsed
      ∧ a = AStr (url ep).
Proof.
  revert i res pr. induction batch as [|ep rest IH]; intros i res pr.
  - simpl. split; [by left|]. intros [H|(j & ? & ? & H & _)]; [done|].
    by rewrite lookup_nil in H.
  - simpl. destruct (fetch_and_parse w i ep) as [parsed|] eqn:Hep; rewrite IH.
    + split.
      * intros [Ha|(j & ep' & p & Hj & Hp & ->)].
        -- apply elem_of_union in Ha as [Ha|Ha]; [by left|].
           apply elem_of_singleton in Ha as ->. right. exists 0%nat, ep, parsed.
           by rewrite Nat.add_0_r.
        -- right. exists (S j), ep', p. split; [done|]. split; [|done].
           by replace (i + S j)%nat with (S i + j)%nat by lia.
      * intros [Ha|([|j] & ep' & p & Hj & Hp & ->)].
        -- left. apply elem_of_union. by left.
        -- simpl in Hj. injection Hj as <-. left. apply elem_of_union. right.
           by apply elem_of_singleton.
        -- right. exists j, ep', p. split; [done|]. split; [|done].
           by replace (S i + j)%nat with (i + S j)%nat by lia.
    + split.
      * intros [Ha|(j & ep' & p & Hj & Hp & ->)]; [by left|].
        right. exists (S j), ep', p. split; [done|]. split; [|done].
        by replace (i + S j)%nat with (S i + j)%nat by lia.
      * intros [Ha|([|j] & ep' & p & Hj & Hp & ->)]; [by left|..].
        -- simpl in Hj. injection Hj as <-. rewrite Nat.add_0_r in Hp. congruence.
        -- right. exists j, ep', p. split; [done|]. split; [|done].
           by replace (S i + j)%nat with (i + S j)%nat by lia.
Qed.

(** C3. In the loop over a batch, an entry whose fetch or flatten fails is
    skipped: the loop goes on with the rest of the batch from the same
    results and the same processed set.  At the end the results are the
    records of the entries that succeeded, in order, and an identifier is in
    the processed set exactly when it was there before or belongs to an entry
    whose fetch and flatten both succeeded. *)
Theorem fetch_loop_skips_failures {rt : PyRuntime} (w : world) (i : nat)
    (batch : list endpoint) (all_results : list record) (processed_urls : gset atom) :
  (∀ ep rest, batch = ep :: rest →
     (fetch_product_data (session_get w i) (clock w i) (url ep) = None
      ∨ ∃ data, fetch_product_data (session_get w i) (clock w i) (url ep) = Some data
                ∧ parse_product data (lastmod ep) = None) →
     fetch_loop w i batch all_results processed_urls
     = fetch_loop w (S i) rest all_results processed_urls)
  ∧ (fetch_loop w i batch all_results processed_urls).1
    = all_results ++ omap id (attempts w i batch)
  ∧ (∀ a, a ∈ (fetch_loop w i batch all_results processed_urls).2
       ↔ a ∈ processed_urls
         ∨ ∃ j ep parsed data,
             batch !! j = Some ep
             ∧ fetch_product_data (session_get w (i + j)) (clock w (i + j)) (url ep)
               = Some data
             ∧ parse_product data (lastmod ep) = Some parsed
             ∧ a = AStr (url ep)).
Proof.
  split; [|split].
  - intros ep rest -> Hfail. apply fetch_loop_cons_fail. unfold fetch_and_parse.
    destruct Hfail as [->|(data & -> & Hp)]; [reflexivity|exact Hp].
  - apply fetch_loop_results.
  - intros a. rewrite fetch_loop_processed. apply or_iff_compat_l. split.
    + intros (j & ep & parsed & Hj & Hp & ->). unfold fetch_and_parse in Hp.
      destruct (fetch_product_data _ _ _) as [data|] eqn:Hf; [|done].
      by exists j, ep, parsed, data.
    + intros (j & ep & parsed & data & Hj & Hf & Hp & ->).
      exists j, ep, parsed. unfold fetch_and_parse. by rewrite Hf.
Qed.

Lemma fetch_loop_skips_failures_witness :
  fetch_product_data (rt := sample_runtime) (session_get sample_world 1)
    (clock sample_world 1) (u "/mobiles/b") = None
  ∧ fetch_loop (rt := sample_runtime) sample_world 1
      [{| url := u "/mobiles/b"; lastmod := None |};
       {| url := u "/mobiles/c"; lastmod := Some (u "2024-01-03") |}] [] ∅
    = fetch_loop (rt := sample_runtime) sample_world 2
        [{| url := u "/mobiles/c"; lastmod := Some (u "2024-01-03") |}] [] ∅.
Proof.
  split; [reflexivity|].
  apply (proj1 (fetch_loop_skips_failures (rt := sample_runtime) sample_world 1
                  [{| url := u "/mobiles/b"; lastmod := None |};
                   {| url := u "/mobiles/c"; lastmod := Some (u "2024-01-03") |}] [] ∅)
           _ _ eq_refl).
  left. reflexivity.
Defined.

(** One run on the sample feed from empty files: the second fetch fails, two
    records are stored, and of the three identifiers only the failed one is
    missing from what is read back from the progress file. *)
Example main_sample_run :
  ∃ progress df,
    main (rt := sample_runtime) sample_world sample_feed
      {| progress_file := None; csv_file := StoreAbsent |}
    = Some {| progress_file := Some progress; csv_file := StoreTable df |}
    ∧ length (rows df) = 2%nat
    ∧ (AStr (u "/mobiles/a") ∈ load_progress (rt := sample_runtime) (Some progress))
    ∧ (AStr (u "/mobiles/b") ∉ load_progress (rt := sample_runtime) (Some progress))
    ∧ (AStr (u "/mobiles/c") ∈ load_progress (rt := sample_runtime) (Some progress)).
Proof.
  eexists _, _. split; [vm_compute; reflexivity|].
  split; [reflexivity|]. split; [|split].
  - apply (bool_decide_unpack _). by vm_compute.
  - apply (bool_decide_unpack _). by vm_compute.
  - apply (bool_decide_unpack _). by vm_compute.
Qed.

(** ** Dictionaries *)

Lemma dict_get_set_eq {V} (k : pystr) (v : V) d : dict_get k (dict_set k v d) = Some v.
Proof.
  induction d as [|[k' v'] d IH]; simpl.
  - by rewrite bool_decide_eq_true_2.
  - destruct (bool_decide (k' = k)) eqn:E; simpl; rewrite E; [reflexivity|exact IH].
Qed.

Lemma dict_get_set_ne {V} (k k' : pystr) (v : V) d :
  k ≠ k' → dict_get k (dict_set k' v d) = dict_get k d.
Proof.
  intros Hne. induction d as [|[k0 v0] d IH]; simpl.
  - rewrite bool_decide_eq_false_2; [reflexivity|congruence].
  - destruct (bool_decide (k0 = k')) eqn:E; simpl.
    + apply bool_decide_eq_true in E as ->.
      rewrite !bool_decide_eq_false_2 by congruence. reflexivity.
    + destruct (bool_decide (k0 = k)); [reflexivity|exact IH].
Qed.

Lemma dict_get_set {V} (k k' : pystr) (v : V) d :
  dict_get k (dict_set k' v d) = if bool_decide (k' = k) then Some v else dict_get k d.
Proof.
  case_bool_decide as E.
  - subst. apply dict_get_set_eq.
  - apply dict_get_set_ne. congruence.
Qed.

Lemma py_get_dict d k dflt : py_get (JDict d) k dflt = Some (default dflt (dict_get k d)).
Proof. reflexivity. Qed.

Lemma py_get_Some x k dflt v :
  py_get x k dflt = Some v → ∃ d, x = JDict d ∧ v = default dflt (dict_get k d).
Proof. destruct x; simpl; intros [=]. subst. eauto. Qed.

(** ** The record flattener *)

Section parse.
Context {rt : PyRuntime}.

Lemma parse_product_inv data lastmod r :
  parse_product data lastmod = Some r →
  ∃ d it cats result brand_d rel_d prods related,
   data = JDict d ∧ default (JDict []) (dict_get (u "item") d) = JDict it
   ∧ py_iter (default (JList []) (dict_get (u "fullSpecs") it)) = Some cats
   ∧ flatten_specs cats [] = Some result
   ∧ default (JDict []) (dict_get (u "brand") it) = JDict brand_d
   ∧ default (JDict []) (dict_get (u "relatedItems") it) = JDict rel_d
   ∧ py_iter (default (JList []) (dict_get (u "products") rel_d)) = Some prods
   ∧ mapM related_pair prods = Some related
   ∧ r = core_update result (default JNull (dict_get (u "name") it))
           (default JNull (dict_get (u "name") brand_d))
           (default JNull (dict_get (u "price") it))
           (default JNull (dict_get (u "priceDrop") it))
           (default JNull (dict_get (u "priceDropAmount") it)) lastmod related.
Proof.
  unfold parse_product. intros H.
  destruct (py_get data _ _) as [item|] eqn:H1; [|done].
  apply py_get_Some in H1 as (d & -> & ->).
  simpl in H.
  destruct (py_get _ (u "fullSpecs") _) as [fs|] eqn:H2; [|done].
  apply py_get_Some in H2 as (it & Hit & ->). simpl in H.
  destruct (py_iter _) as [cats|] eqn:H3; [|done]. simpl in H.
  destruct (flatten_specs cats []) as [result|] eqn:H4; [|done]. simpl in H.
  rewrite Hit in H. rewrite !py_get_dict in H. simpl in H.
  destruct (py_get (default _ (dict_get (u "brand") it)) _ _) as [brand|] eqn:H5; [|done].
  apply py_get_Some in H5 as (brand_d & Hb & ->). simpl in H.
  destruct (py_get (default _ (dict_get (u "relatedItems") it)) _ _) as [products|] eqn:H6; [|done].
  apply py_get_Some in H6 as (rel_d & Hr & ->). simpl in H.
  destruct (py_iter (default _ (dict_get (u "products") rel_d))) as [prods|] eqn:H7; [|done].
  simpl in H.
  destruct (mapM related_pair prods) as [related|] eqn:H8; [|done]. simpl in H.
  injection H as <-.
  by exists d, it, cats, result, brand_d, rel_d, prods, related.
Qed.

Lemma core_update_get result name brand price pd pda lastmod related :
  let r := core_update result name brand price pd pda lastmod related in
  dict_get (u "Name") r = Some name
  ∧ dict_get (u "Brand") r = Some brand
  ∧ dict_get (u "Price") r = Some price
  ∧ dict_get (u "Price Drop") r = Some pd
  ∧ dict_get (u "Price Drop Amount") r = Some pda
  ∧ dict_get (u "Last modified") r = Some (lastmod_value lastmod)
  ∧ dict_get (u "Related Items") r = Some (JStr (json_dumps plain_opts (JList related))).
Proof.
  unfold core_update, dict_update. simpl.
  repeat split; rewrite !dict_get_set; reflexivity.
Qed.

Lemma core_update_other result name brand price pd pda lastmod related k :
  k ∉ core_fields →
  dict_get k (core_update result name brand price pd pda lastmod related)
  = dict_get k result.
Proof.
  intros Hk. unfold core_update, dict_update. simpl.
  rewrite !dict_get_set.
  repeat (case_bool_decide as E;
    [destruct Hk; rewrite <- E; unfold core_fields;
     repeat (apply list_elem_of_here || apply list_elem_of_further)|clear E]).
  reflexivity.
Qed.

Lemma col_name_not_core title spec_title : col_name title spec_title ∉ core_fields.
Proof.
  assert (Hdot : ∀ k, k ∈ core_fields → 46 ∉ k).
  { intros k Hk. unfold core_fields in Hk.
    repeat (apply elem_of_cons in Hk as [->|Hk]); [..|by apply elem_of_nil in Hk];
      apply (bool_decide_unpack _); by vm_compute. }
  intros Hin. apply (Hdot _ Hin). unfold col_name.
  apply elem_of_app. right. apply elem_of_app. left. by apply list_elem_of_singleton.
Qed.

(** Totality on well-shaped input. *)





End parse.

(** ** The text of [json.dumps] *)

Lemma uint_text_digits (d : Decimal.uint) :
  Forall (λ c, is_digit c = true) (uint_text d).
Proof. induction d; simpl; constructor; done. Qed.

Lemma to_uint_no_leading_zero (p : positive) (d : Decimal.uint) :
  Pos.to_uint p ≠ D0 d.
Proof.
  intros E.
  assert (Hnorm : unorm (Pos.to_uint p) = Pos.to_uint p).
  { rewrite <- (Unsigned.to_of (Pos.to_uint p)), Unsigned.of_to. reflexivity. }
  rewrite E in Hnorm.
  assert (nzhead (D0 d) = Nil ∨ nzhead (D0 d) ≠ Nil) as [Hz|Hz]
    by (destruct (nzhead (D0 d)); (by left) || (by right)).
  - apply unorm_0 in Hz. rewrite Hz in Hnorm.
    apply (Unsigned.to_uint_nonzero p). by rewrite E, <- Hnorm.
  - rewrite unorm_nzhead in Hnorm by exact Hz.
    exact (nzhead_nonzero _ _ Hnorm).
Qed.

Lemma pos_text (p : positive) :
  ∃ c ds, uint_text (Pos.to_uint p) = c :: ds ∧ 49 ≤ c ≤ 57
          ∧ Forall (λ c, is_digit c = true) ds.
Proof.
  pose proof (Unsigned.to_uint_nonnil p) as Hnil.
  pose proof (to_uint_no_leading_zero p) as Hz.
  destruct (Pos.to_uint p) as [|d|d|d|d|d|d|d|d|d|d]; simpl;
    [done|by destruct (Hz d)|..];
    eexists _, _; (split; [reflexivity|]); (split; [unfold digit_char; lia|]);
    apply uint_text_digits.
Qed.

Lemma int_text_number (z : Z) : number_text (int_text z).
Proof.
  destruct z as [|p|p]; simpl.
  - exists [], [48], [], []. split; [reflexivity|]. repeat split; by left.
  - destruct (pos_text p) as (c & ds & -> & Hc & Hds).
    exists [], (c :: ds), [], []. split; [by rewrite !app_nil_r|].
    split; [by left|]. split; [right; eauto|]. split; by left.
  - destruct (pos_text p) as (c & ds & -> & Hc & Hds).
    exists [45], (c :: ds), [], []. split; [simpl; by rewrite !app_nil_r|].
    split; [by right|]. split; [right; eauto|]. split; by left.
Qed.

Lemma hex_value_char (x : Z) : 0 ≤ x < 16 → hex_value (hex_char x) = Some x.
Proof.
  intros Hx. unfold hex_char, hex_value.
  destruct (Z.ltb_spec x 10).
  - replace ((48 <=? 48 + x) && (48 + x <=? 57)) with true
      by (symmetry; apply andb_true_intro; split; lia).
    f_equal. lia.
  - replace ((48 <=? 87 + x) && (87 + x <=? 57)) with false
      by (symmetry; apply andb_false_intro2; lia).
    replace ((97 <=? 87 + x) && (87 + x <=? 102)) with true
      by (symmetry; apply andb_true_intro; split; lia).
    f_equal. lia.
Qed.

Lemma hex_char_digit (x : Z) : hex_digit (hex_char (x mod 16)).
Proof.
  unfold hex_digit. rewrite hex_value_char; [eauto|].
  apply Z.mod_pos_bound. reflexivity.
Qed.

Lemma escape_short_Some (c : Z) (e : pystr) :
  escape_short c = Some e →
  ∃ x, e = [92; x] ∧ x ∈ [34; 92; 47; 98; 102; 110; 114; 116].
Proof.
  unfold escape_short. intros H.
  repeat (case_match; [injection H as <-; eexists; split; [reflexivity|set_solver]|]).
  discriminate.
Qed.

Lemma escape_short_None (c : Z) : escape_short c = None → c ≠ 34 ∧ c ≠ 92.
Proof.
  unfold escape_short. intros H.
  destruct (Z.eqb_spec c 34); [done|]. destruct (Z.eqb_spec c 92); [done|]. done.
Qed.

Lemma escape_char_body (c : Z) (s : pystr) :
  string_body s → string_body (escape_char c ++ s).
Proof.
  intros Hs. unfold escape_char.
  destruct (escape_short c) as [e|] eqn:He.
  - apply escape_short_Some in He as (x & -> & Hx). simpl. by apply body_escape.
  - apply escape_short_None in He as [H1 H2].
    destruct ((0 <=? c) && (c <? 32)) eqn:Hctl.
    + simpl. apply body_unicode; try apply hex_char_digit. exact Hs.
    + simpl. apply body_char; try done.
      intros [? ?]. apply andb_false_iff in Hctl as [?%Z.leb_gt|?%Z.ltb_ge]; lia.
Qed.

Lemma flat_map_escape_body (s : pystr) : string_body (flat_map escape_char s).
Proof.
  induction s as [|c s IH]; simpl; [constructor|]. by apply escape_char_body.
Qed.

Lemma encode_str_text (s : pystr) : value_text (encode_str plain_opts s).
Proof. unfold encode_str. simpl. apply text_string, flat_map_escape_body. Qed.

Lemma ws_nil : ws_text [].
Proof. constructor. Qed.

Lemma ws_space : ws_text [32].
Proof. by repeat constructor. Qed.

Lemma join_elements (items : list pystr) (w : pystr) :
  items ≠ [] → Forall value_text items → ws_text w →
  elements_text (w ++ join_text (u ", ") items).
Proof.
  revert w. induction items as [|p [|q rest] IH]; intros w Hne Hall Hw; [done|..].
  - simpl. apply Forall_cons_1 in Hall as [Hp _].
    rewrite <- (app_nil_r p). apply elements_last; [done|done|apply ws_nil].
  - apply Forall_cons_1 in Hall as [Hp Hrest].
    change (join_text (u ", ") (p :: q :: rest))
      with (p ++ [] ++ 44 :: ([32] ++ join_text (u ", ") (q :: rest))).
    apply elements_more; [done|done|apply ws_nil|].
    apply IH; [done|done|apply ws_space].
Qed.

Lemma join_members (items : list (pystr * pystr)) (w : pystr) :
  items ≠ [] → Forall (λ kv, string_body kv.1 ∧ value_text kv.2) items → ws_text w →
  members_text
    (w ++ join_text (u ", ")
            ((λ kv, (34 :: kv.1 ++ [34]) ++ u ": " ++ kv.2) <$> items)).
Proof.
  revert w. induction items as [|[k v] [|q rest] IH]; intros w Hne Hall Hw; [done|..].
  - apply Forall_cons_1 in Hall as [[Hk Hv] _]. simpl in Hk, Hv.
    replace (join_text _ _)
      with ((34 :: k ++ [34]) ++ [] ++ 58 :: [32] ++ v ++ [])
      by (simpl; by rewrite app_nil_r).
    apply members_last; [done|done|apply ws_nil|apply ws_space|done|apply ws_nil].
  - apply Forall_cons_1 in Hall as [[Hk Hv] Hrest]. simpl in Hk, Hv.
    replace (join_text _ _)
      with ((34 :: k ++ [34]) ++ [] ++ 58 :: [32] ++ v ++ [] ++ 44 ::
              ([32] ++ join_text (u ", ")
                 ((λ kv, (34 :: kv.1 ++ [34]) ++ u ": " ++ kv.2) <$> (q :: rest))))
      by (simpl; rewrite <- !app_assoc; reflexivity).
    apply members_more; [done|done|apply ws_nil|apply ws_space|done|apply ws_nil|].
    apply IH; [done|done|apply ws_space].
Qed.

Section dumps.
Context {rt : PyRuntime}.

Lemma float_json_number (f : spec_float) :
  is_finite f = true → number_text (float_json f).
Proof.
  intros Hf. destruct f; try discriminate; simpl; by apply float_repr_number.
Qed.

Lemma json_encode_text (v : json) :
  json_document v = true → ∀ level, value_text (json_encode plain_opts level v).
Proof.
  induction v as [|b|z|f|s|l IH|d IH] using json_ind; intros Hdoc level; simpl.
  - constructor.
  - destruct b; constructor.
  - apply text_number, int_text_number.
  - apply text_number, float_json_number, Hdoc.
  - apply encode_str_text.
  - destruct l as [|x l]; [apply (text_array_empty []), ws_nil|].
    unfold encode_seq. remember (List.map _ (x :: l)) as items eqn:Hitems.
    destruct items as [|i0 items]; [discriminate|]. rewrite Hitems. clear Hitems.
    change (newline_indent plain_opts _) with (@nil Z).
    rewrite !app_nil_l, app_nil_r.
    apply text_array, (join_elements _ []); [done| |apply ws_nil].
    simpl in Hdoc. apply andb_true_iff in Hdoc as [Hx Hl].
    apply List.Forall_forall. intros t Ht. apply in_map_iff in Ht as (y & <- & Hy).
    rewrite List.Forall_forall in IH. apply IH; [done|].
    destruct Hy as [->|Hy]; [done|].
    rewrite forallb_forall in Hl. by apply Hl.
  - destruct d as [|x d]; [apply (text_object_empty []), ws_nil|].
    unfold encode_seq. remember (List.map _ (x :: d)) as items eqn:Hitems.
    destruct items as [|i0 items]; [discriminate|]. rewrite Hitems. clear Hitems.
    change (newline_indent plain_opts _) with (@nil Z).
    rewrite !app_nil_l, app_nil_r.
    set (pairs := (λ kv : pystr * json,
                     (flat_map escape_char kv.1,
                      json_encode plain_opts (S level) kv.2)) <$> (x :: d)).
    replace (List.map _ (x :: d))
      with ((λ kv : pystr * pystr, (34 :: kv.1 ++ [34]) ++ u ": " ++ kv.2) <$> pairs).
    2:{ unfold pairs. rewrite <- list_fmap_compose. reflexivity. }
    apply text_object, (join_members _ []); [done| |apply ws_nil].
    unfold pairs. apply Forall_fmap, List.Forall_forall. intros kv Hkv. simpl.
    split; [apply flat_map_escape_body|].
    rewrite List.Forall_forall in IH. apply IH; [done|].
    change (forallb (λ kv, json_document kv.2) (x :: d) = true) in Hdoc.
    rewrite forallb_forall in Hdoc. by apply Hdoc.
Qed.
End dumps.

(** ** Properties of the flattener *)

Section flattener.
Context {rt : PyRuntime}.

Lemma encode_seq_array level items :
  Forall value_text items → json_array_text (encode_seq plain_opts level 91 93 items).
Proof.
  intros Hall. destruct items as [|i0 items].
  - exists []. split; [reflexivity|]. left. apply ws_nil.
  - exists (join_text (u ", ") (i0 :: items)). split.
    + unfold encode_seq. change (newline_indent plain_opts _) with (@nil Z).
      by rewrite !app_nil_l, app_nil_r.
    + right. exact (join_elements (i0 :: items) [] ltac:(done) Hall ws_nil).
Qed.

Lemma json_document_default d k dflt :
  json_document (JDict d) = true → json_document dflt = true →
  json_document (default dflt (dict_get k d)) = true.
Proof.
  intros Hd Hdflt. induction d as [|[k' v] d IH]; simpl; [done|].
  change (json_document v && json_document (JDict d) = true) in Hd.
  apply andb_true_iff in Hd as [Hv Hd].
  destruct (bool_decide (k' = k)); [done|by apply IH].
Qed.

Lemma py_iter_document v l :
  json_document v = true → py_iter v = Some l → forallb json_document l = true.
Proof.
  intros Hv Hl. apply forallb_forall. intros x Hx.
  destruct v; simpl in Hl; try discriminate; injection Hl as <-.
  - apply list_elem_of_In, list_elem_of_fmap in Hx as (c & -> & _). reflexivity.
  - simpl in Hv. rewrite forallb_forall in Hv. by apply Hv.
  - apply list_elem_of_In, list_elem_of_fmap in Hx as (c & -> & _). reflexivity.
Qed.

Lemma related_documents prods related :
  forallb json_document prods = true → mapM related_pair prods = Some related →
  forallb json_document related = true.
Proof.
  revert related. induction prods as [|x rest IH]; intros related Hall Hm; cbn in Hm.
  - by injection Hm as <-.
  - apply andb_true_iff in Hall as [Hx Hrest].
    destruct x as [| | | | | |d]; try discriminate. cbn in Hm.
    destruct (mapM related_pair rest) as [l|]; [|discriminate].
    cbn in Hm. injection Hm as <-. cbn. rewrite (IH l Hrest eq_refl).
    by rewrite !json_document_default.
Qed.

Lemma parse_product_fields data lastmod r :
  parse_product data lastmod = Some r →
  ∃ result related,
    mapM related_pair (related_products data) = Some related
    ∧ (json_document data = true → forallb json_document related = true)
    ∧ r = core_update result
            (default JNull (member (u "name") (item_of data)))
            (default JNull (member (u "brand") (item_of data) ≫= member (u "name")))
            (default JNull (member (u "price") (item_of data)))
            (default JNull (member (u "priceDrop") (item_of data)))
            (default JNull (member (u "priceDropAmount") (item_of data)))
            lastmod related.
Proof.
  intros H. apply parse_product_inv in H
    as (d & it & cats & result & brand_d & rel_d & prods & related
        & -> & Hit & Hcats & Hres & Hbrand & Hrel & Hprods & Hrelated & ->).
  exists result, related. unfold related_products. simpl. rewrite Hit. simpl.
  assert (Hp : (dict_get (u "relatedItems") it ≫= member (u "products")) ≫= py_iter
               = Some prods
               ∨ (dict_get (u "relatedItems") it ≫= member (u "products")) = None
                 ∧ prods = []).
  { destruct (dict_get (u "relatedItems") it) as [v|]; simpl in Hrel |- *.
    - subst v. simpl. destruct (dict_get (u "products") rel_d); simpl in Hprods |- *.
      + by left.
      + right. split; [done|]. by injection Hprods as <-.
    - injection Hrel as <-. simpl in Hprods. right. split; [done|].
      by injection Hprods as <-. }
  split; [|split].
  - destruct Hp as [->|[-> ->]]; simpl; [exact Hrelated|].
    simpl in Hrelated. exact Hrelated.
  - intros Hdoc. eapply related_documents; [|exact Hrelated].
    simpl in Hdoc.
    assert (json_document (JDict it) = true) as Hjit.
    { rewrite <- Hit. by apply json_document_default. }
    assert (json_document (JDict rel_d) = true) as Hjrel.
    { rewrite <- Hrel. by apply json_document_default. }
    eapply py_iter_document; [|exact Hprods]. by apply json_document_default.
  - f_equal. destruct (dict_get (u "brand") it) as [v|]; simpl in Hbrand |- *.
    + by subst v.
    + by injection Hbrand as <-.
Qed.

(** C5, amended. Whenever [parse_product] returns a record, the record holds
    all seven core fields, and its [Related Items] value is a string; that
    string is JSON array text for every JSON document, that is for every
    input that holds no NaN and no infinity, and it is the two characters of
    the empty array when the related-products list is absent. *)
Theorem parse_product_core_fields (data : json) (lastmod : option pystr) (r : record) :
  parse_product data lastmod = Some r →
  (∀ k, k ∈ core_fields → is_Some (dict_get k r))
  ∧ ∃ txt, dict_get (u "Related Items") r = Some (JStr txt)
      ∧ (json_document data = true → json_array_text txt)
      ∧ (member (u "relatedItems") (item_of data) ≫= member (u "products") = None →
         txt = u "[]").
Proof.
  intros H. apply parse_product_fields in H as (result & related & Hrel & Hdoc & ->).
  destruct (core_update_get result
              (default JNull (member (u "name") (item_of data)))
              (default JNull (member (u "brand") (item_of data) ≫= member (u "name")))
              (default JNull (member (u "price") (item_of data)))
              (default JNull (member (u "priceDrop") (item_of data)))
              (default JNull (member (u "priceDropAmount") (item_of data)))
              lastmod related) as (H1 & H2 & H3 & H4 & H5 & H6 & H7).
  split.
  - intros k Hk. unfold core_fields in Hk.
    repeat (apply elem_of_cons in Hk as [->|Hk]); [..|by apply elem_of_nil in Hk]; eauto.
  - eexists. split; [exact H7|]. split.
    + intros Hd. specialize (Hdoc Hd). unfold json_dumps. simpl.
      apply encode_seq_array. apply List.Forall_forall. intros t Ht.
      apply in_map_iff in Ht as (y & <- & Hy).
      apply json_encode_text. rewrite forallb_forall in Hdoc. by apply Hdoc.
    + intros Habs. unfold related_products in Hrel. rewrite Habs in Hrel.
      simpl in Hrel. by injection Hrel as <-.
Qed.

(** C10. The record [parse_product] returns holds, under each of the seven
    core names, the value of the core field (read from the item, the
    last-modified argument and the related products), whatever the loop over
    the spec categories has written: [result.update] runs after the loop.  A
    spec column name always contains a dot and so is never a core name. *)
Theorem core_fields_take_precedence (data : json) (lastmod : option pystr) (r : record) :
  parse_product data lastmod = Some r →
  dict_get (u "Name") r = Some (default JNull (member (u "name") (item_of data)))
  ∧ dict_get (u "Brand") r
    = Some (default JNull (member (u "brand") (item_of data) ≫= member (u "name")))
  ∧ dict_get (u "Price") r = Some (default JNull (member (u "price") (item_of data)))
  ∧ dict_get (u "Price Drop") r
    = Some (default JNull (member (u "priceDrop") (item_of data)))
  ∧ dict_get (u "Price Drop Amount") r
    = Some (default JNull (member (u "priceDropAmount") (item_of data)))
  ∧ dict_get (u "Last modified") r = Some (lastmod_value lastmod)
  ∧ (∃ related, mapM related_pair (related_products data) = Some related
       ∧ dict_get (u "Related Items") r
         = Some (JStr (json_dumps plain_opts (JList related))))
  ∧ (∀ title spec_title, col_name title spec_title ∉ core_fields).
Proof.
  intros H. apply parse_product_fields in H as (result & related & Hrel & _ & ->).
  destruct (core_update_get result
              (default JNull (member (u "name") (item_of data)))
              (default JNull (member (u "brand") (item_of data) ≫= member (u "name")))
              (default JNull (member (u "price") (item_of data)))
              (default JNull (member (u "priceDrop") (item_of data)))
              (default JNull (member (u "priceDropAmount") (item_of data)))
              lastmod related) as (H1 & H2 & H3 & H4 & H5 & H6 & H7).
  repeat (split; [assumption|]). split; [eauto|]. apply col_name_not_core.
Qed.

End flattener.

(** *** What JSON text holds outside its strings *)

Lemma tokens_only_plain (t r : pystr) :
  Forall (λ c, token_char c = true) t →
  tokens_only Outside (t ++ r) = tokens_only Outside r.
Proof.
  induction 1 as [|c t Hc _ IH]; [reflexivity|]. simpl.
  destruct (Z.eqb_spec c 34) as [->|_]; [discriminate Hc|].
  by rewrite Hc, IH.
Qed.

Lemma token_char_ws (w : pystr) : ws_text w → Forall (λ c, token_char c = true) w.
Proof.
  intros H. eapply Forall_impl; [exact H|]. intros c Hc. unfold token_char. by rewrite Hc.
Qed.

Lemma token_char_digits (ds : pystr) :
  Forall (λ c, is_digit c = true) ds → Forall (λ c, token_char c = true) ds.
Proof.
  intros H. eapply Forall_impl; [exact H|]. intros c Hc. unfold token_char.
  by rewrite Hc, orb_true_r.
Qed.

Lemma token_char_number (t : pystr) :
  number_text t → Forall (λ c, token_char c = true) t.
Proof.
  intros (sign & i & f & e & -> & Hsign & Hi & Hf & He).
  repeat apply Forall_app_2.
  - destruct Hsign as [->| ->]; by repeat constructor.
  - destruct Hi as [->|(d & ds & -> & Hd & Hds)]; [by repeat constructor|].
    apply (token_char_digits (d :: ds)). constructor; [|done].
    unfold is_digit. apply andb_true_iff. split; apply Z.leb_le; lia.
  - destruct Hf as [->|(d & ds & -> & Hds)]; [constructor|].
    constructor; [done|]. by apply token_char_digits.
  - destruct He as [->|(x & sg & d & ds & -> & Hx & Hsg & Hds)]; [constructor|].
    constructor; [by destruct Hx as [->| ->]|].
    apply Forall_app_2; [|by apply token_char_digits].
    destruct Hsg as [->|[->| ->]]; by repeat constructor.
Qed.

Lemma hex_digit_plain (h : Z) : hex_digit h → (h =? 34) = false ∧ (h =? 92) = false.
Proof.
  unfold hex_digit, hex_value. intros [v Hv].
  destruct (Z.eqb_spec h 34) as [->|_]; [discriminate Hv|].
  destruct (Z.eqb_spec h 92) as [->|_]; [discriminate Hv|]. done.
Qed.

Lemma tokens_only_string_body (b r : pystr) :
  string_body b → tokens_only Inside (b ++ r) = tokens_only Inside r.
Proof.
  induction 1 as [|c s H34 H92 _ _ IH|e s _ _ IH|h1 h2 h3 h4 s H1 H2 H3 H4 _ IH];
    [reflexivity|..]; simpl.
  - destruct (Z.eqb_spec c 34); [done|]. destruct (Z.eqb_spec c 92); [done|]. exact IH.
  - exact IH.
  - destruct (hex_digit_plain _ H1) as [-> ->], (hex_digit_plain _ H2) as [-> ->],
      (hex_digit_plain _ H3) as [-> ->], (hex_digit_plain _ H4) as [-> ->]. exact IH.
Qed.

Lemma tokens_only_quoted (k r : pystr) :
  string_body k → tokens_only Outside (34 :: k ++ 34 :: r) = tokens_only Outside r.
Proof.
  intros Hk. change (tokens_only Outside (34 :: k ++ 34 :: r))
    with (tokens_only Inside (k ++ 34 :: r)).
  by rewrite tokens_only_string_body.
Qed.

Lemma tokens_only_ws (w r : pystr) :
  ws_text w → tokens_only Outside (w ++ r) = tokens_only Outside r.
Proof. intros Hw. by apply tokens_only_plain, token_char_ws. Qed.

Lemma tokens_only_json_text :
  (∀ v, value_text v → ∀ r, tokens_only Outside (v ++ r) = tokens_only Outside r)
  ∧ (∀ els, elements_text els →
       ∀ r, tokens_only Outside (els ++ r) = tokens_only Outside r)
  ∧ (∀ ms, members_text ms →
       ∀ r, tokens_only Outside (ms ++ r) = tokens_only Outside r).
Proof.
  apply json_text_min.
  - reflexivity.
  - reflexivity.
  - reflexivity.
  - intros t Ht r. by apply tokens_only_plain, token_char_number.
  - intros b Hb r. flat_text. by apply tokens_only_quoted.
  - intros w Hw r. flat_text.
    change (tokens_only Outside (91 :: w ++ 93 :: r))
      with (tokens_only Outside (w ++ 93 :: r)).
    by rewrite tokens_only_ws.
  - intros els _ IH r. flat_text.
    change (tokens_only Outside (91 :: els ++ 93 :: r))
      with (tokens_only Outside (els ++ 93 :: r)).
    by rewrite IH.
  - intros w Hw r. flat_text.
    change (tokens_only Outside (123 :: w ++ 125 :: r))
      with (tokens_only Outside (w ++ 125 :: r)).
    by rewrite tokens_only_ws.
  - intros ms _ IH r. flat_text.
    change (tokens_only Outside (123 :: ms ++ 125 :: r))
      with (tokens_only Outside (ms ++ 125 :: r)).
    by rewrite IH.
  - intros w1 v w2 Hw1 _ IHv Hw2 r. flat_text.
    by rewrite tokens_only_ws, IHv, tokens_only_ws.
  - intros w1 v w2 rest Hw1 _ IHv Hw2 _ IHrest r. flat_text.
    rewrite tokens_only_ws, IHv, tokens_only_ws by done.
    change (tokens_only Outside (44 :: rest ++ r)) with (tokens_only Outside (rest ++ r)).
    apply IHrest.
  - intros w1 k w2 w3 v w4 Hw1 Hk Hw2 Hw3 _ IHv Hw4 r. flat_text.
    rewrite tokens_only_ws, tokens_only_quoted, tokens_only_ws by done.
    change (tokens_only Outside (58 :: ?x)) with (tokens_only Outside x).
    by rewrite tokens_only_ws, IHv, tokens_only_ws.
  - intros w1 k w2 w3 v w4 rest Hw1 Hk Hw2 Hw3 _ IHv Hw4 _ IHrest r. flat_text.
    rewrite tokens_only_ws, tokens_only_quoted, tokens_only_ws by done.
    change (tokens_only Outside (58 :: ?x)) with (tokens_only Outside x).
    rewrite tokens_only_ws, IHv, tokens_only_ws by done.
    change (tokens_only Outside (44 :: rest ++ r)) with (tokens_only Outside (rest ++ r)).
    apply IHrest.
Qed.

Lemma json_array_text_tokens (t : pystr) :
  json_array_text t → tokens_only Outside t = true.
Proof.
  intros (body & -> & [Hws|Hels]).
  - change (tokens_only Outside (91 :: body ++ [93]))
      with (tokens_only Outside (body ++ [93])).
    by rewrite tokens_only_ws.
  - change (tokens_only Outside (91 :: body ++ [93]))
      with (tokens_only Outside (body ++ [93])).
    destruct tokens_only_json_text as (_ & Hall & _). by rewrite Hall.
Qed.

(** C5 as stated fails: the response decoder accepts [NaN], so a related
    product can carry it as its price, and [json.dumps] writes it back as
    [NaN], which the JSON grammar has no production for. *)
Lemma related_items_not_json_on_nan :
  json_loads (rt := sample_runtime) nan_text = Ok nan_document
  ∧ (∃ r, parse_product (rt := sample_runtime) nan_document None = Some r
       ∧ dict_get (u "Related Items") r = Some (JStr nan_related_text))
  ∧ ¬ json_array_text nan_related_text
  ∧ ¬ (∀ (rt : PyRuntime) data lastmod r,
         parse_product data lastmod = Some r →
         ∃ txt, dict_get (u "Related Items") r = Some (JStr txt) ∧ json_array_text txt).
Proof.
  assert (Hparse : ∃ r, parse_product (rt := sample_runtime) nan_document None = Some r
       ∧ dict_get (u "Related Items") r = Some (JStr nan_related_text)).
  { eexists. split; [by vm_compute|]. by vm_compute. }
  assert (Hnot : ¬ json_array_text nan_related_text).
  { intros H%json_array_text_tokens. by vm_compute in H. }
  split; [by vm_compute|]. split; [exact Hparse|]. split; [exact Hnot|].
  intros Hall. destruct Hparse as (r & Hr & Hget).
  destruct (Hall sample_runtime nan_document None r Hr) as (txt & Htxt & Harr).
  rewrite Hget in Htxt. injection Htxt as <-. by apply Hnot.
Qed.



Lemma parse_product_core_fields_witness :
  parse_product (rt := sample_runtime) sample_document (Some (u "2024-01-01"))
  = Some sample_record
  ∧ json_document sample_document = true
  ∧ dict_get (u "Related Items") sample_record = Some (JStr sample_related_text)
  ∧ json_array_text sample_related_text.
Proof.
  split; [reflexivity|]. split; [reflexivity|]. split; [reflexivity|].
  destruct (parse_product_core_fields (rt := sample_runtime) sample_document
              (Some (u "2024-01-01")) sample_record eq_refl)
    as (_ & txt & Htxt & Harr & _).
  injection Htxt as <-. exact (Harr eq_refl).
Defined.

Lemma core_fields_take_precedence_witness :
  parse_product (rt := sample_runtime) sample_document (Some (u "2024-01-01"))
  = Some sample_record
  ∧ dict_get (u "Name") sample_record = Some (JStr (u "Phone")).
Proof.
  split; [reflexivity|].
  exact (proj1 (core_fields_take_precedence (rt := sample_runtime) sample_document
                  (Some (u "2024-01-01")) sample_record eq_refl)).
Defined.

(** ** The tabular store *)


Lemma str_le_lex (a b : pystr) : str_le a b = true ↔ lex_le a b.
Proof.
  revert b. induction a as [|x a IH]; intros b; simpl.
  - split; [constructor|done].
  - destruct b as [|y b]; [split; [done|inversion 1]|].
    destruct (Z.ltb_spec x y) as [Hxy|Hxy].
    + split; [by constructor|done].
    + destruct (Z.ltb_spec y x) as [Hyx|Hyx].
      * split; [done|]. inversion 1; subst; lia.
      * assert (x = y) as -> by lia. rewrite IH. split; [by constructor|].
        inversion 1; subst; [lia|done].
Qed.

Lemma str_le_total (a b : pystr) : str_le a b = false → str_le b a = true.
Proof.
  revert b. induction a as [|x a IH]; intros b; simpl; [done|].
  destruct b as [|y b]; [done|]. simpl.
  destruct (Z.ltb_spec x y); [done|]. destruct (Z.ltb_spec y x); [done|].
  apply IH.
Qed.

Lemma insert_sorted_perm (x : pystr) (l : list pystr) : insert_sorted x l ≡ₚ x :: l.
Proof.
  induction l as [|y l IH]; simpl; [done|].
  destruct (str_le x y); [done|]. rewrite IH. apply Permutation_swap.
Qed.

Lemma sorted_perm (l : list pystr) : sorted l ≡ₚ l.
Proof.
  induction l as [|x l IH]; simpl; [done|].
  unfold sorted in *. simpl. by rewrite insert_sorted_perm, IH.
Qed.

Lemma insert_sorted_hd (x y : pystr) (l : list pystr) :
  lex_le y x → HdRel lex_le y l → HdRel lex_le y (insert_sorted x l).
Proof.
  intros Hyx Hl. destruct l as [|z l]; simpl; [by constructor|].
  destruct (str_le x z); constructor; [done|]. by inversion Hl.
Qed.

Lemma insert_sorted_Sorted (x : pystr) (l : list pystr) :
  Sorted lex_le l → Sorted lex_le (insert_sorted x l).
Proof.
  induction 1 as [|y l Hl IH Hhd]; simpl; [by repeat constructor|].
  destruct (str_le x y) eqn:Hxy.
  - constructor; [by constructor|]. constructor. by apply str_le_lex.
  - constructor; [exact IH|]. apply insert_sorted_hd; [|done].
    by apply str_le_lex, str_le_total.
Qed.

Lemma sorted_lexicographic (l : list pystr) : lexicographic (sorted l).
Proof.
  unfold lexicographic, sorted. induction l as [|x l IH]; simpl; [constructor|].
  by apply insert_sorted_Sorted.
Qed.

Lemma elem_of_add_label (cols : list pystr) (c x : pystr) :
  x ∈ add_label cols c ↔ x ∈ cols ∨ x = c.
Proof.
  unfold add_label. case_bool_decide as Hc.
  - split; [by left|]. intros [?| ->]; done.
  - rewrite elem_of_app, list_elem_of_singleton. done.
Qed.

Lemma elem_of_add_labels (cols new : list pystr) (x : pystr) :
  x ∈ foldl add_label cols new ↔ x ∈ cols ∨ x ∈ new.
Proof.
  revert cols. induction new as [|c new IH]; intros cols; simpl.
  - split; [by left|]. intros [?|H]; [done|]. by apply elem_of_nil in H.
  - rewrite IH, elem_of_add_label, elem_of_cons. tauto.
Qed.

Lemma add_labels_NoDup (cols new : list pystr) :
  NoDup cols → NoDup (foldl add_label cols new).
Proof.
  revert cols. induction new as [|c new IH]; intros cols Hnd; simpl; [done|].
  apply IH. unfold add_label. case_bool_decide as Hc; [done|].
  apply NoDup_app. split; [done|]. split; [|apply NoDup_singleton].
  intros x Hx ->%list_elem_of_singleton. exact (Hc Hx).
Qed.



Lemma dict_get_None_keys {V} (k : pystr) (d : list (pystr * V)) :
  k ∉ d.*1 → dict_get k d = None.
Proof.
  induction d as [|[k' v] d IH]; simpl; [done|]. intros Hk.
  rewrite bool_decide_eq_false_2.
  - apply IH. intros ?. apply Hk. by apply list_elem_of_further.
  - intros ->. apply Hk. apply list_elem_of_here.
Qed.


Lemma merged_columns (a b : dataframe) (c : pystr) :
  c ∈ columns (merged a b) ↔ c ∈ columns a ∨ c ∈ columns b.
Proof.
  unfold merged. simpl. rewrite sorted_perm. apply elem_of_add_labels.
Qed.



Lemma merged_length (a b : dataframe) :
  length (rows (merged a b)) = (length (rows a) + length (rows b))%nat.
Proof.
  unfold merged, reindex, concat. cbn [rows].
  by rewrite length_fmap, length_app, !length_fmap.
Qed.





(** *** Writing: when [to_csv] completes *)

Lemma to_csv_Some (df : dataframe) (csv' : store) :
  to_csv df = Some csv' ↔ encodable df = true ∧ csv' = StoreTable df.
Proof.
  unfold to_csv. destruct (encodable df).
  - split; [by intros [= <-]|by intros [_ ->]].
  - split; [done|by intros [? _]].
Qed.

Lemma write_store_table (df_existing : dataframe) (r : record) (rs : list record) :
  write_store (StoreTable df_existing) (r :: rs)
  = to_csv (merged df_existing (json_normalize (r :: rs))).
Proof. reflexivity. Qed.

Lemma write_store_first (r : record) (rs : list record) :
  write_store StoreAbsent (r :: rs) = to_csv (json_normalize (r :: rs)).
Proof. reflexivity. Qed.

Lemma row_cell_encodable (cols : list pystr) (row : list cell) (c : pystr) :
  forallb cell_encodable row = true → cell_encodable (row_cell cols row c) = true.
Proof.
  unfold row_cell. revert row.
  induction cols as [|c' cols IH]; intros [|x row] Hrow; try reflexivity.
  cbn [forallb] in Hrow. apply andb_true_iff in Hrow as [Hx Hrow].
  cbn [zip_with dict_get fst snd]. destruct (bool_decide (c' = c)); [exact Hx|].
  by apply IH.
Qed.

Lemma realign_encodable (cols new_cols : list pystr) (row : list cell) :
  forallb cell_encodable row = true →
  forallb cell_encodable (realign cols new_cols row) = true.
Proof.
  intros Hrow. unfold realign.
  induction new_cols as [|c new_cols IH]; [reflexivity|].
  cbn [fmap list_fmap forallb]. rewrite row_cell_encodable by done. exact IH.
Qed.

Lemma realign_rows_encodable (cols new_cols : list pystr) (rs : list (list cell)) :
  forallb (forallb cell_encodable) rs = true →
  forallb (forallb cell_encodable) (realign cols new_cols <$> rs) = true.
Proof.
  induction rs as [|row rs IH]; [reflexivity|].
  cbn [fmap list_fmap forallb]. intros [Hrow Hrs]%andb_true_iff.
  rewrite realign_encodable by done. by apply IH.
Qed.

(** The merged table can be written when the stored table and the frame of
    the new records can. *)
Lemma merged_encodable (a b : dataframe) :
  encodable a = true → encodable b = true → encodable (merged a b) = true.
Proof.
  unfold encodable. intros [Hca Hra]%andb_true_iff [Hcb Hrb]%andb_true_iff.
  apply andb_true_iff. split.
  - apply forallb_forall. intros c Hc.
    apply list_elem_of_In, merged_columns in Hc as [Hc|Hc].
    + rewrite forallb_forall in Hca. by apply Hca, list_elem_of_In.
    + rewrite forallb_forall in Hcb. by apply Hcb, list_elem_of_In.
  - unfold merged, reindex, concat. cbn [rows columns].
    apply realign_rows_encodable. rewrite forallb_app.
    by rewrite !realign_rows_encodable.
Qed.




(** C7, amended. Every rewrite that merges new records into a stored table
    leaves the header in lexicographic order, and the first write, when no
    table is stored, writes the frame of the new records as [json_normalize]
    built it, its columns not sorted.  Either write completes when every
    label and string value is text that UTF-8 can encode. *)
Theorem merged_header_lexicographic (df_existing : dataframe)
    (all_results : list record) :
  all_results ≠ [] →
  (∀ csv', write_store (StoreTable df_existing) all_results = Some csv' →
     ∃ df, csv' = StoreTable df ∧ lexicographic (columns df))
  ∧ (encodable df_existing = true → encodable (json_normalize all_results) = true →
     is_Some (write_store (StoreTable df_existing) all_results))
  ∧ (∀ csv', write_store StoreAbsent all_results = Some csv' →
       csv' = StoreTable (json_normalize all_results))
  ∧ (encodable (json_normalize all_results) = true →
     write_store StoreAbsent all_results
     = Some (StoreTable (json_normalize all_results))).
Proof.
  intros Hne. destruct all_results as [|r rest]; [done|].
  rewrite write_store_table, write_store_first. split; [|split; [|split]].
  - intros csv' [_ ->]%to_csv_Some. eexists. split; [reflexivity|].
    apply sorted_lexicographic.
  - intros Hold Hnew. exists (StoreTable (merged df_existing (json_normalize (r :: rest)))).
    apply to_csv_Some. split; [by apply merged_encodable|done].
  - by intros csv' [_ ->]%to_csv_Some.
  - intros Hnew. by apply to_csv_Some.
Qed.

Lemma merged_header_lexicographic_witness :
  [sample_record] ≠ []
  ∧ write_store (StoreTable (json_normalize [sample_record])) [sample_record]
    = Some (StoreTable (merged (json_normalize [sample_record])
                          (json_normalize [sample_record])))
  ∧ (∃ df, StoreTable (merged (json_normalize [sample_record])
                         (json_normalize [sample_record])) = StoreTable df
         ∧ lexicographic (columns df))
  ∧ write_store StoreAbsent [sample_record]
    = Some (StoreTable (json_normalize [sample_record])).
Proof.
  assert (Hw : write_store (StoreTable (json_normalize [sample_record])) [sample_record]
               = Some (StoreTable (merged (json_normalize [sample_record])
                                     (json_normalize [sample_record]))))
    by (by vm_compute).
  split; [done|]. split; [exact Hw|].
  destruct (merged_header_lexicographic (json_normalize [sample_record]) [sample_record]
              ltac:(done)) as (Hlex & _ & _ & Hfirst).
  split; [exact (Hlex _ Hw)|exact (Hfirst eq_refl)].
Defined.

(** C7 as stated fails on the first write: the header is the column order of
    the frame of the new records, which for the sample record has [Name]
    before [Brand]. *)
Lemma first_write_header_not_lexicographic :
  write_store StoreAbsent [sample_record]
  = Some (StoreTable (json_normalize [sample_record]))
  ∧ columns (json_normalize [sample_record])
    = [u "General.SIM"; u "Name"; u "Brand"; u "Price"; u "Price Drop";
       u "Price Drop Amount"; u "Last modified"; u "Related Items"]
  ∧ ¬ lexicographic (columns (json_normalize [sample_record])).
Proof.
  split; [reflexivity|]. split; [reflexivity|].
  intros Hs. change (columns (json_normalize [sample_record]))
    with [u "General.SIM"; u "Name"; u "Brand"; u "Price"; u "Price Drop";
          u "Price Drop Amount"; u "Last modified"; u "Related Items"] in Hs.
  inversion Hs as [|? ? Htail _]. inversion Htail as [|? ? _ Hhd].
  inversion Hhd as [|? ? Hle]. apply str_le_lex in Hle. discriminate Hle.
Qed.

(** ** The decoder: what is consumed, and that the fuel suffices *)

Lemma skip_ws_length (s : pystr) : (length (skip_ws s) ≤ length s)%nat.
Proof. induction s as [|c s IH]; simpl; [lia|]. destruct (is_ws c); simpl; lia. Qed.

Lemma push_length (c : Z) (r : option (pystr * pystr)) (n : nat) :
  (∀ str rest, r = Some (str, rest) → (length rest < n)%nat) →
  ∀ str rest, push c r = Some (str, rest) → (length rest < n)%nat.
Proof.
  intros Hr str rest. unfold push. destruct r as [[str' rest']|]; [|done].
  simpl. intros [= <- <-]. by eapply Hr.
Qed.

Lemma scanstring_length (s str rest : pystr) :
  scanstring s = Some (str, rest) → (length rest < length s)%nat.
Proof.
  remember (length s) as n eqn:Hn. revert s Hn str rest.
  induction n as [n IH] using lt_wf_ind. intros s -> str rest.
  assert (Hrec : ∀ s' c, (length s' < length s)%nat →
            ∀ str rest, push c (scanstring s') = Some (str, rest) →
                        (length rest < length s)%nat).
  { intros s' c Hlt. apply push_length. intros str' rest' H'.
    specialize (IH _ Hlt s' eq_refl _ _ H'). lia. }
  destruct s as [|c s1]; [done|]. simpl scanstring.
  destruct (c =? 34); [intros [= <- <-]; simpl; lia|].
  destruct (c =? 92).
  - destruct s1 as [|e s2]; [done|].
    destruct (e =? 117).
    + destruct s2 as [|h1 [|h2 [|h3 [|h4 s3]]]]; try done.
      destruct (decode_hex4 h1 h2 h3 h4) as [uni|]; [|done].
      destruct ((55296 <=? uni) && (uni <=? 56319)); [|apply Hrec; simpl; lia].
      destruct s3 as [|b [|v s5]]; try (apply Hrec; simpl; lia).
      destruct ((b =? 92) && (v =? 117)); [|apply Hrec; simpl; lia].
      destruct s5 as [|g1 [|g2 [|g3 [|g4 s6]]]]; try done.
      destruct (decode_hex4 g1 g2 g3 g4) as [uni2|]; [|done].
      destruct ((56320 <=? uni2) && (uni2 <=? 57343)); apply Hrec; simpl; lia.
    + destruct (unescape e); [|done]. apply Hrec. simpl. lia.
  - destruct ((0 <=? c) && (c <? 32)); [done|]. apply Hrec. simpl. lia.
Qed.

Lemma strip_prefix_length (word s r : pystr) :
  strip_prefix word s = Some r → (length s = length word + length r)%nat.
Proof.
  revert s. induction word as [|w word IH]; intros s; simpl.
  - by intros [= ->].
  - destruct s as [|c s]; [done|]. destruct (w =? c); [|done].
    intros H. apply IH in H. simpl. lia.
Qed.

Lemma span_digits_length (s ds r : pystr) :
  span_digits s = (ds, r) → (length s = length ds + length r)%nat.
Proof.
  revert ds r. induction s as [|c s IH]; intros ds r; simpl.
  - by intros [= <- <-].
  - destruct (is_digit c).
    + destruct (span_digits s) as [ds' r'] eqn:E. intros [= <- <-].
      specialize (IH _ _ eq_refl). simpl. lia.
    + by intros [= <- <-].
Qed.

Lemma match_integer_length (s i r : pystr) :
  match_integer s = Some (i, r) → (length r < length s)%nat.
Proof.
  destruct s as [|c s]; simpl; [done|].
  destruct (c =? 48); [intros [= <- <-]; simpl; lia|].
  destruct (is_digit c); [|done].
  destruct (span_digits s) as [ds r'] eqn:E. intros [= <- <-].
  apply span_digits_length in E. simpl. lia.
Qed.

Lemma match_frac_length (s f r : pystr) :
  match_frac s = (f, r) → (length r ≤ length s)%nat.
Proof.
  destruct s as [|c s]; simpl; [by intros [= <- <-]|].
  destruct (c =? 46); [|by intros [= <- <-]].
  destruct (span_digits s) as [ds r'] eqn:E. apply span_digits_length in E.
  destruct ds; intros [= <- <-]; simpl in *; lia.
Qed.

Lemma match_exp_length (s e r : pystr) :
  match_exp s = (e, r) → (length r ≤ length s)%nat.
Proof.
  destruct s as [|c s]; simpl; [by intros [= <- <-]|].
  destruct ((c =? 101) || (c =? 69)); [|by intros [= <- <-]].
  destruct s as [|g s]; [by intros [= <- <-]|].
  destruct ((g =? 45) || (g =? 43)).
  - destruct (span_digits s) as [ds r'] eqn:E. apply span_digits_length in E.
    destruct ds; intros [= <- <-]; simpl in *; lia.
  - destruct (span_digits (g :: s)) as [ds r'] eqn:E. apply span_digits_length in E.
    destruct ds; intros [= <- <-]; simpl in *; lia.
Qed.

Section decoder.
Context {rt : PyRuntime}.

Lemma scan_number_length (s : pystr) (v : json) (r : pystr) :
  scan_number s = Some (v, r) → (length r < length s)%nat.
Proof.
  unfold scan_number.
  set (split := match s with c :: s' => if c =? 45 then ([c], s') else ([], s) | [] => ([], s) end).
  assert (Hs0 : (length split.2 ≤ length s)%nat).
  { subst split. destruct s as [|c s']; simpl; [lia|]. destruct (c =? 45); simpl; lia. }
  destruct split as [sign s0]. simpl in Hs0.
  destruct (match_integer s0) as [[i s1]|] eqn:Hi; [|done]. simpl.
  apply match_integer_length in Hi.
  destruct (match_frac s1) as [f s2] eqn:Hf. apply match_frac_length in Hf.
  destruct (match_exp s2) as [e s3] eqn:He. apply match_exp_length in He.
  destruct f, e; intros [= <- <-]; lia.
Qed.

Lemma scan_scalar_length (s : pystr) (v : json) (r : pystr) :
  scan_scalar s = Some (v, r) → (length r < length s)%nat.
Proof.
  unfold scan_scalar.
  repeat (match goal with
          | |- context [strip_prefix ?w s] =>
              let E := fresh "E" in
              destruct (strip_prefix w s) eqn:E;
              [apply strip_prefix_length in E; intros [= <- <-];
               rewrite E; simpl; lia|]
          | |- context [scan_number s] =>
              let E := fresh "E" in
              destruct (scan_number s) as [[? ?]|] eqn:E;
              [apply scan_number_length in E; by intros [= <- <-]|]
          end).
  done.
Qed.

Lemma scan_fuel (fuel : nat) :
  (∀ s, (2 * length s < fuel)%nat →
     scan_once fuel s ≠ OutOfFuel
     ∧ ∀ v r, scan_once fuel s = Ok (v, r) → (length r < length s)%nat)
  ∧ (∀ s, (2 * length s + 1 < fuel)%nat →
     array_items fuel s ≠ OutOfFuel
     ∧ ∀ l r, array_items fuel s = Ok (l, r) → (length r < length s)%nat)
  ∧ (∀ s acc, (2 * length s + 1 < fuel)%nat →
     object_items fuel s acc ≠ OutOfFuel
     ∧ ∀ d r, object_items fuel s acc = Ok (d, r) → (length r < length s)%nat).
Proof.
  induction fuel as [|fuel (IHs & IHa & IHo)].
  { repeat split; intros; lia. }
  split; [|split].
  - intros s Hf. destruct s as [|c s']; simpl; [done|]. simpl in Hf.
    pose proof (skip_ws_length s') as Hws.
    destruct (c =? 34).
    { destruct (scanstring s') as [[str r]|] eqn:E; simpl; [|done].
      apply scanstring_length in E. split; [done|]. intros v r' [= <- <-]. lia. }
    destruct (c =? 123).
    { destruct (skip_ws s') as [|c1 r1] eqn:E; [done|].
      destruct (c1 =? 125).
      - split; [done|]. intros v r [= <- <-]. simpl in Hws. lia.
      - destruct (IHo (c1 :: r1) [] ltac:(lia)) as [Hne Hlen].
        destruct (object_items fuel (c1 :: r1) []) as [[d r]| |]; simpl; [|done|done].
        split; [done|]. intros v r' [= <- <-]. specialize (Hlen _ _ eq_refl). lia. }
    destruct (c =? 91).
    { destruct (skip_ws s') as [|c1 r1] eqn:E; [done|].
      destruct (c1 =? 93).
      - split; [done|]. intros v r [= <- <-]. simpl in Hws. lia.
      - destruct (IHa (c1 :: r1) ltac:(lia)) as [Hne Hlen].
        destruct (array_items fuel (c1 :: r1)) as [[l r]| |]; simpl; [|done|done].
        split; [done|]. intros v r' [= <- <-]. specialize (Hlen _ _ eq_refl). lia. }
    destruct (scan_scalar (c :: s')) as [[v r]|] eqn:E; simpl; [|done].
    apply scan_scalar_length in E. split; [done|]. by intros v' r' [= <- <-].
  - intros s Hf. simpl.
    destruct (IHs s ltac:(lia)) as [Hne Hlen].
    destruct (scan_once fuel s) as [[v r]| |]; simpl; [|done|done].
    specialize (Hlen _ _ eq_refl). pose proof (skip_ws_length r) as Hws.
    destruct (skip_ws r) as [|c r1]; [done|].
    destruct (c =? 93).
    { split; [done|]. intros l r' [= <- <-]. simpl in Hws. lia. }
    destruct (c =? 44); [|done].
    pose proof (skip_ws_length r1) as Hws1. simpl in Hws.
    destruct (IHa (skip_ws r1) ltac:(lia)) as [Hne' Hlen'].
    destruct (array_items fuel (skip_ws r1)) as [[l r2]| |]; simpl; [|done|done].
    split; [done|]. intros l' r' [= <- <-]. specialize (Hlen' _ _ eq_refl). lia.
  - intros s acc Hf. simpl.
    destruct s as [|q s0]; [done|]. simpl in Hf.
    destruct (q =? 34); [|done].
    destruct (scanstring s0) as [[key r0]|] eqn:E; [|done].
    apply scanstring_length in E. pose proof (skip_ws_length r0) as Hws0.
    destruct (skip_ws r0) as [|colon r1]; [done|]. simpl in Hws0.
    destruct (colon =? 58); [|done].
    pose proof (skip_ws_length r1) as Hws1.
    destruct (IHs (skip_ws r1) ltac:(lia)) as [Hne Hlen].
    destruct (scan_once fuel (skip_ws r1)) as [[v r2]| |]; simpl; [|done|done].
    specialize (Hlen _ _ eq_refl). pose proof (skip_ws_length r2) as Hws2.
    destruct (skip_ws r2) as [|c r3]; [done|]. simpl in Hws2.
    destruct (c =? 125).
    { split; [done|]. intros d r' [= <- <-]. simpl. lia. }
    destruct (c =? 44); [|done].
    pose proof (skip_ws_length r3) as Hws3.
    destruct (IHo (skip_ws r3) (dict_set key v acc) ltac:(lia)) as [Hne' Hlen'].
    split; [done|]. intros d r' H. specialize (Hlen' _ _ H). simpl. lia.
Qed.

Lemma json_loads_fuel (t : pystr) : json_loads t ≠ OutOfFuel.
Proof.
  unfold json_loads.
  assert (H : obind (scan_once (S (2 * length t)) (skip_ws t))
                (λ res, match skip_ws res.2 with [] => Ok res.1 | _ => Err end)
              ≠ OutOfFuel).
  { pose proof (skip_ws_length t) as Hws.
    destruct (proj1 (scan_fuel (S (2 * length t))) (skip_ws t) ltac:(lia)) as [Hne _].
    destruct (scan_once _ _) as [[v r]| |]; simpl; [|done|done].
    by destruct (skip_ws r). }
  destruct t as [|c t']; [exact H|].
  destruct c as [|p|p]; try exact H.
  repeat (destruct p as [p|p|]; try exact H).
Qed.
End decoder.

(** ** The progress file: writing and reading back *)

Lemma unescape_short (c : Z) (e : pystr) :
  escape_short c = Some e →
  ∃ x, e = [92; x] ∧ (x =? 117) = false ∧ unescape x = Some c.
Proof.
  unfold escape_short. intros H.
  repeat (match type of H with
          | (if ?c =? ?k then _ else _) = _ =>
              destruct (Z.eqb_spec c k) as [->|_];
              [injection H as <-; eexists; repeat split; reflexivity|]
          end).
  discriminate.
Qed.

Lemma decode_hex4_control (c : Z) :
  0 ≤ c < 32 →
  decode_hex4 (hex_char (c / 4096 mod 16)) (hex_char (c / 256 mod 16))
    (hex_char (c / 16 mod 16)) (hex_char (c mod 16)) = Some c.
Proof.
  intros Hc. unfold decode_hex4.
  rewrite !hex_value_char by (apply Z.mod_pos_bound; lia). simpl. f_equal.
  rewrite (Z.div_small c 4096), (Z.div_small c 256) by lia.
  change (0 mod 16) with 0.
  pose proof (Z.div_mod c 16 ltac:(lia)) as Hdm.
  assert (0 ≤ c / 16 < 2) by (split; [apply Z.div_pos; lia|apply Z.div_lt_upper_bound; lia]).
  rewrite (Z.mod_small (c / 16) 16) by lia. lia.
Qed.

(** [scanstring] reads back what [py_encode_basestring] wrote. *)
Lemma scanstring_escape (s rest : pystr) :
  scanstring (flat_map escape_char s ++ 34 :: rest) = Some (s, rest).
Proof.
  induction s as [|c s IH]; [reflexivity|].
  cbn [flat_map]. rewrite <- app_assoc. unfold escape_char at 1.
  destruct (escape_short c) as [e|] eqn:He.
  - apply unescape_short in He as (x & -> & Hx & Hu).
    cbn [app scanstring]. change (92 =? 34) with false. change (92 =? 92) with true.
    cbv iota. rewrite Hx, Hu, IH. reflexivity.
  - apply escape_short_None in He as [H34 H92].
    destruct ((0 <=? c) && (c <? 32)) eqn:Hctl.
    + apply andb_true_iff in Hctl as [H0%Z.leb_le H32%Z.ltb_lt].
      cbn [app hex4 u scanstring].
      change (scanstring (92 :: 117 :: ?l)) with (scanstring (92 :: 117 :: l)).
      cbn. rewrite decode_hex4_control by lia.
      replace ((55296 <=? c) && (c <=? 56319)) with false
        by (symmetry; apply andb_false_intro1, Z.leb_gt; lia).
      rewrite IH. reflexivity.
    + cbn [app scanstring].
      destruct (Z.eqb_spec c 34); [done|]. destruct (Z.eqb_spec c 92); [done|].
      rewrite Hctl, IH. reflexivity.
Qed.

Lemma dumps_strings {rt : PyRuntime} (strs : list pystr) :
  json_dumps indent2_opts (JList (JStr <$> strs))
  = match strs with
    | [] => [91; 93]
    | _ => 91 :: [10; 32; 32] ++ join_text [44; 10; 32; 32] (quoted <$> strs) ++ [10; 93]
    end.
Proof.
  unfold json_dumps. cbn [json_encode].
  replace (List.map (json_encode indent2_opts 1) (JStr <$> strs)) with (quoted <$> strs).
  - destruct strs as [|s strs]; reflexivity.
  - induction strs as [|s strs IH]; [reflexivity|]. cbn. f_equal. exact IH.
Qed.

Lemma skip_ws_quoted (w : pystr) (s rest : pystr) :
  ws_text w → skip_ws (w ++ quoted s ++ rest) = quoted s ++ rest.
Proof.
  induction 1 as [|c w Hc _ IH]; [reflexivity|]. simpl. by rewrite Hc.
Qed.

Lemma join_quoted_cons (sep : pystr) (s0 s1 : pystr) (strs : list pystr) :
  join_text sep (quoted <$> s0 :: s1 :: strs)
  = quoted s0 ++ sep ++ join_text sep (quoted <$> s1 :: strs).
Proof. reflexivity. Qed.

Lemma join_quoted_head (sep : pystr) (s0 : pystr) (strs : list pystr) :
  ∃ tail, join_text sep (quoted <$> s0 :: strs) = quoted s0 ++ tail.
Proof.
  destruct strs as [|s1 strs].
  - exists []. simpl. by rewrite app_nil_r.
  - eexists. apply join_quoted_cons.
Qed.

Section progress.
Context {rt : PyRuntime}.

Lemma scan_once_quoted (fuel : nat) (s rest : pystr) :
  scan_once (S fuel) (quoted s ++ rest) = Ok (JStr s, rest).
Proof.
  unfold quoted. cbn [app scan_once]. change (34 =? 34) with true. cbv iota.
  rewrite <- app_assoc. cbn [app]. by rewrite scanstring_escape.
Qed.

Lemma array_items_S (fuel : nat) (s : pystr) :
  array_items (S fuel) s
  = obind (scan_once fuel s) (λ res,
      match skip_ws res.2 with
      | c :: r =>
          if c =? 93 then Ok ([res.1], r)
          else if c =? 44 then
            obind (array_items fuel (skip_ws r)) (λ more, Ok (res.1 :: more.1, more.2))
          else Err
      | [] => Err
      end).
Proof. reflexivity. Qed.

Lemma array_items_strings (strs : list pystr) (s0 : pystr) (fuel : nat) (rest : pystr) :
  (length (s0 :: strs) < fuel)%nat →
  array_items fuel (join_text [44; 10; 32; 32] (quoted <$> s0 :: strs) ++ 10 :: 93 :: rest)
  = Ok (JStr <$> s0 :: strs, rest).
Proof.
  revert s0 fuel. induction strs as [|s1 strs IH]; intros s0 fuel Hfuel.
  - destruct fuel as [|[|fuel]]; [simpl in Hfuel; lia..|].
    rewrite array_items_S. cbn [fmap list_fmap join_text].
    rewrite scan_once_quoted. reflexivity.
  - destruct fuel as [|[|fuel]]; [simpl in Hfuel; lia..|].
    rewrite array_items_S, join_quoted_cons, <- !app_assoc.
    rewrite scan_once_quoted. cbn [obind fst snd].
    change ([44; 10; 32; 32] ++ ?x) with (44 :: [10; 32; 32] ++ x).
    cbn [skip_ws]. change (is_ws 44) with false. cbv iota.
    change (44 =? 93) with false. change (44 =? 44) with true. cbv iota.
    destruct (join_quoted_head [44; 10; 32; 32] s1 strs) as [tail Htail].
    assert (Hskip : skip_ws ([10; 32; 32] ++ join_text [44; 10; 32; 32] (quoted <$> s1 :: strs)
                               ++ 10 :: 93 :: rest)
                    = join_text [44; 10; 32; 32] (quoted <$> s1 :: strs) ++ 10 :: 93 :: rest).
    { rewrite Htail, <- !app_assoc.
      exact (skip_ws_quoted [10; 32; 32] s1 (tail ++ 10 :: 93 :: rest)
               ltac:(by repeat constructor)). }
    rewrite Hskip, IH by (simpl in *; lia). reflexivity.
Qed.

Lemma scan_once_array_S (fuel : nat) (s : pystr) :
  scan_once (S fuel) (91 :: s)
  = match skip_ws s with
    | c1 :: r1 =>
        if c1 =? 93 then Ok (JList [], r1)
        else obind (array_items fuel (skip_ws s)) (λ res, Ok (JList res.1, res.2))
    | [] => Err
    end.
Proof. reflexivity. Qed.

Lemma scan_once_strings (strs : list pystr) (fuel : nat) (rest : pystr) :
  (length strs + 1 < fuel)%nat →
  scan_once fuel (json_dumps indent2_opts (JList (JStr <$> strs)) ++ rest)
  = Ok (JList (JStr <$> strs), rest).
Proof.
  intros Hfuel. rewrite dumps_strings. destruct fuel as [|fuel]; [lia|].
  destruct strs as [|s0 strs]; [reflexivity|].
  cbn [app]. rewrite scan_once_array_S.
  destruct (join_quoted_head [44; 10; 32; 32] s0 strs) as [tail Htail].
  assert (Hskip : skip_ws (10 :: 32 :: 32 :: (join_text [44; 10; 32; 32] (quoted <$> s0 :: strs)
                             ++ [10; 93]) ++ rest)
                  = join_text [44; 10; 32; 32] (quoted <$> s0 :: strs) ++ 10 :: 93 :: rest).
  { rewrite Htail, <- !app_assoc.
    exact (skip_ws_quoted [10; 32; 32] s0 (tail ++ 10 :: 93 :: rest)
             ltac:(by repeat constructor)). }
  rewrite Hskip. rewrite Htail at 1. unfold quoted at 1. cbn [app].
  change (34 =? 93) with false. cbv iota.
  rewrite array_items_strings by (simpl in *; lia). reflexivity.
Qed.

Lemma join_quoted_length (sep : pystr) (strs : list pystr) :
  (length strs ≤ length (join_text sep (quoted <$> strs)))%nat.
Proof.
  induction strs as [|s0 [|s1 strs] IH]; [simpl; lia..|].
  rewrite join_quoted_cons, !length_app. unfold quoted at 1. simpl in *. lia.
Qed.

Lemma json_loads_strings (strs : list pystr) :
  json_loads (json_dumps indent2_opts (JList (JStr <$> strs)))
  = Ok (JList (JStr <$> strs)).
Proof.
  assert (∃ t', json_dumps indent2_opts (JList (JStr <$> strs)) = 91 :: t'
                ∧ (length strs ≤ length t')%nat) as (t' & Ht & Hlen).
  { rewrite dumps_strings. destruct strs as [|s0 strs].
    { exists [93]. split; [reflexivity|simpl; lia]. }
    eexists. split; [reflexivity|].
    pose proof (join_quoted_length [44; 10; 32; 32] (s0 :: strs)).
    rewrite !length_app. simpl in *. lia. }
  pose proof (scan_once_strings strs (S (2 * length (91 :: t'))) []
                ltac:(simpl; lia)) as Hscan.
  rewrite Ht, app_nil_r in Hscan.
  unfold json_loads. rewrite Ht.
  change (skip_ws (91 :: t')) with (91 :: t').
  cbv match. rewrite Hscan. reflexivity.
Qed.

Lemma py_set_strings (strs : list pystr) :
  py_set (JList (JStr <$> strs)) = Some (list_to_set (AStr <$> strs)).
Proof.
  unfold py_set. cbn [py_iter mbind option_bind].
  assert (mapM json_atom (JStr <$> strs) = Some (AStr <$> strs)) as ->; [|reflexivity].
  induction strs as [|s strs IH]; [reflexivity|]. cbn. by rewrite IH.
Qed.

Lemma scalar_ascii (c : Z) : 0 ≤ c < 128 → scalar_value c = true.
Proof.
  intros Hc. unfold scalar_value.
  apply andb_true_intro. split.
  - apply andb_true_intro. split; [apply Z.leb_le|apply Z.leb_le]; lia.
  - apply negb_true_iff, andb_false_intro1, Z.leb_gt. lia.
Qed.

Lemma hex_char_ascii (x : Z) : 0 ≤ hex_char (x mod 16) < 128.
Proof.
  pose proof (Z.mod_pos_bound x 16 eq_refl). unfold hex_char.
  destruct (x mod 16 <? 10); lia.
Qed.

Lemma escape_char_scalar (c : Z) :
  scalar_value c = true → forallb scalar_value (escape_char c) = true.
Proof.
  intros Hc. unfold escape_char.
  destruct (escape_short c) as [e|] eqn:He.
  - apply escape_short_Some in He as (x & -> & Hx).
    repeat (apply elem_of_cons in Hx as [->|Hx]); [reflexivity..|].
    by apply elem_of_nil in Hx.
  - destruct ((0 <=? c) && (c <? 32)).
    + change (u "\u" ++ hex4 c) with (92 :: 117 :: hex4 c).
      unfold hex4. cbn [forallb].
      rewrite !(scalar_ascii (hex_char _)) by apply hex_char_ascii. reflexivity.
    + simpl. by rewrite Hc.
Qed.

Lemma quoted_scalar (s : pystr) :
  forallb scalar_value s = true → forallb scalar_value (quoted s) = true.
Proof.
  intros Hs. unfold quoted. cbn [forallb]. change (scalar_value 34) with true.
  rewrite forallb_app. cbn. rewrite andb_true_r.
  induction s as [|c s IH]; [reflexivity|].
  cbn [flat_map]. rewrite forallb_app. simpl in Hs.
  apply andb_true_iff in Hs as [Hc Hs]. by rewrite escape_char_scalar, IH.
Qed.

Lemma join_quoted_scalar (strs : list pystr) :
  Forall (λ s, forallb scalar_value s = true) strs →
  forallb scalar_value (join_text [44; 10; 32; 32] (quoted <$> strs)) = true.
Proof.
  induction strs as [|s0 [|s1 strs] IH]; intros Hall; [reflexivity|..].
  - apply Forall_cons_1 in Hall as [H0 _]. by apply quoted_scalar.
  - apply Forall_cons_1 in Hall as [H0 Hall].
    rewrite join_quoted_cons, !forallb_app.
    by rewrite (quoted_scalar s0 H0), (IH Hall).
Qed.

Lemma dumps_strings_scalar (strs : list pystr) :
  Forall (λ s, forallb scalar_value s = true) strs →
  forallb scalar_value (json_dumps indent2_opts (JList (JStr <$> strs))) = true.
Proof.
  intros Hall. rewrite dumps_strings. destruct strs as [|s0 strs]; [reflexivity|].
  change (91 :: [10; 32; 32] ++ ?x) with ([91; 10; 32; 32] ++ x).
  rewrite !forallb_app. by rewrite (join_quoted_scalar _ Hall).
Qed.

Lemma strings_of_set (ids : gset pystr) :
  ∃ strs, set_order (set_map AStr ids : gset atom) = AStr <$> strs
          ∧ Forall (λ s, s ∈ ids) strs.
Proof.
  assert (Hall : Forall (λ a, ∃ s, a = AStr s ∧ s ∈ ids)
                   (set_order (set_map AStr ids : gset atom))).
  { apply List.Forall_forall. intros a Ha. apply list_elem_of_In in Ha.
    rewrite set_order_perm in Ha. apply elem_of_elements, elem_of_map in Ha.
    destruct Ha as (s & -> & Hs). eauto. }
  induction Hall as [|a l (s & -> & Hs) _ (strs & -> & Hstrs)].
  - by exists [].
  - exists (s :: strs). split; [reflexivity|]. by constructor.
Qed.


(** C9. [load_progress] yields the empty set when there is no progress file,
    when its bytes are not text, when the text is not JSON, and when the JSON
    value cannot be made a set; it always yields a set, and the decoder's
    fuel is never what stops it. *)
Theorem load_progress_recovers (progress : option file_content) :
  (progress = None → load_progress progress = ∅)
  ∧ (progress = Some Undecodable → load_progress progress = ∅)
  ∧ (∀ t, progress = Some (Text t) → json_loads t = Err → load_progress progress = ∅)
  ∧ (∀ t v, progress = Some (Text t) → json_loads t = Ok v → py_set v = None →
       load_progress progress = ∅)
  ∧ (∀ t, json_loads t ≠ OutOfFuel).
Proof.
  repeat split.
  - by intros ->.
  - by intros ->.
  - intros t -> Ht. simpl. by rewrite Ht.
  - intros t v -> Ht Hv. simpl. by rewrite Ht, Hv.
  - apply json_loads_fuel.
Qed.
End progress.


Lemma load_progress_recovers_witness :
  json_loads (rt := sample_runtime) (u "[1, 2") = Err
  ∧ load_progress (rt := sample_runtime) (Some (Text (u "[1, 2"))) = ∅.
Proof.
  split; [reflexivity|].
  exact (proj1 (proj2 (proj2 (load_progress_recovers (rt := sample_runtime)
                                (Some (Text (u "[1, 2"))))))
           (u "[1, 2") eq_refl eq_refl).
Defined.

(** ** Sitemap entries and endpoints *)

Lemma strip_prefix_Some (word s r : pystr) :
  strip_prefix word s = Some r ↔ s = word ++ r.
Proof.
  revert s. induction word as [|w word IH]; intros s; simpl.
  - split; [by intros [= ->]|by intros ->].
  - destruct s as [|c s]; [split; [done|intros [=]]|].
    destruct (Z.eqb_spec w c) as [->|Hne].
    + rewrite IH. split; [by intros ->|by intros [= ->]].
    + split; [done|]. intros [= -> _]. done.
Qed.

Lemma forallb_no_slash (slug : pystr) :
  forallb (λ c, negb (c =? 47)) slug = true ↔ 47 ∉ slug.
Proof.
  induction slug as [|c slug IH]; simpl.
  - split; [intros _ H; by apply elem_of_nil in H|done].
  - rewrite andb_true_iff, IH, not_elem_of_cons, negb_true_iff, Z.eqb_neq.
    split; intros [? ?]; split; congruence.
Qed.

Lemma matches_here_spec (product_type s : pystr) :
  matches_here product_type s = true ↔ endpoint_path product_type s.
Proof.
  unfold matches_here, endpoint_path.
  destruct (strip_prefix _ s) as [slug|] eqn:E.
  - apply strip_prefix_Some in E. simpl in E. rewrite <- app_assoc in E. simpl in E.
    rewrite andb_true_iff, negb_true_iff, bool_decide_eq_false, forallb_no_slash.
    split.
    + intros [? ?]. by exists slug.
    + intros (slug' & Hs & ? & ?). rewrite E in Hs. injection Hs as Hs.
      apply app_inv_head in Hs. injection Hs as <-. done.
  - split; [done|]. intros (slug & -> & _).
    assert (strip_prefix (47 :: product_type ++ [47]) (47 :: product_type ++ 47 :: slug)
            = Some slug) as E'.
    { apply strip_prefix_Some. simpl. by rewrite <- app_assoc. }
    congruence.
Qed.

Lemma split_first_unique (x : Z) (l1 l2 r1 r2 : pystr) :
  x ∉ l1 → x ∉ l2 → l1 ++ x :: r1 = l2 ++ x :: r2 → l1 = l2 ∧ r1 = r2.
Proof.
  revert l2. induction l1 as [|a l1 IH]; intros [|b l2] H1 H2 E; simpl in E.
  - by injection E as ->.
  - injection E as -> _. destruct H2. apply list_elem_of_here.
  - injection E as -> _. destruct H1. apply list_elem_of_here.
  - injection E as -> E. apply not_elem_of_cons in H1 as [_ H1].
    apply not_elem_of_cons in H2 as [_ H2].
    destruct (IH l2 H1 H2 E) as [-> ->]. done.
Qed.

Lemma endpoint_path_unique (product_type s m1 m2 : pystr) :
  m1 `suffix_of` s → m2 `suffix_of` s →
  endpoint_path product_type m1 → endpoint_path product_type m2 → m1 = m2.
Proof.
  intros [k1 E1] [k2 E2] (slug1 & -> & _ & Hs1) (slug2 & -> & _ & Hs2).
  rewrite E1 in E2. clear E1.
  assert (E : reverse slug1 ++ 47 :: reverse (k1 ++ 47 :: product_type)
              = reverse slug2 ++ 47 :: reverse (k2 ++ 47 :: product_type)).
  { assert (E : (k1 ++ 47 :: product_type) ++ 47 :: slug1
                 = (k2 ++ 47 :: product_type) ++ 47 :: slug2)
      by (rewrite <- !app_assoc; exact E2).
    apply (f_equal reverse) in E.
    rewrite !(reverse_app (_ ++ _ :: product_type)), !reverse_cons in E.
    rewrite <- !app_assoc in E. exact E. }
  apply split_first_unique in E as [Hslug _]; [|by rewrite elem_of_reverse..].
  apply (inj reverse) in Hslug. by subst.
Qed.

Lemma re_search_spec (product_type s m : pystr) :
  re_search product_type s = Some m
  ↔ m `suffix_of` s ∧ endpoint_path product_type m.
Proof.
  induction s as [|c s IH].
  - simpl. split; [done|]. intros [->%suffix_nil_inv Hm].
    apply matches_here_spec in Hm. discriminate Hm.
  - simpl. destruct (matches_here product_type (c :: s)) eqn:E.
    + apply matches_here_spec in E. split.
      * intros [= <-]. split; [done|exact E].
      * intros [Hsuf Hm]. f_equal. symmetry.
        by eapply endpoint_path_unique.
    + rewrite IH. split.
      * intros [Hsuf Hm]. split; [by apply suffix_cons_r|done].
      * intros [Hsuf Hm]. split; [|done].
        destruct Hsuf as [[|c' k] Hk]; simpl in Hk.
        -- subst m. apply matches_here_spec in Hm. congruence.
        -- injection Hk as _ ->. by exists k.
Qed.

(** X2. For a product type that is a plain word, [extract_endpoint] returns
    an endpoint exactly when the entry's URL ends in [/<product type>/<slug>]
    with a non-empty slug that holds no slash; the endpoint's [url] is that
    ending and its [lastmod] is the entry's.  So it returns [None] exactly
    when the URL has no such ending. *)
Theorem extract_endpoint_spec (product_type : pystr) (entry ep : endpoint) :
  plain_word product_type = true →
  (extract_endpoint product_type entry = Some ep
   ↔ url ep `suffix_of` url entry ∧ endpoint_path product_type (url ep)
     ∧ lastmod ep = lastmod entry).
Proof.
  intros _. unfold extract_endpoint. split.
  - destruct (re_search _ _) as [m|] eqn:E; [|done]. intros [= <-]. simpl.
    apply re_search_spec in E as [? ?]. done.
  - intros (Hsuf & Hm & Hl). destruct ep as [m l]. simpl in *. subst l.
    assert (re_search product_type (url entry) = Some m) as -> by by apply re_search_spec.
    reflexivity.
Qed.

(** X3. For a product type that is a plain word, extraction is idempotent:
    an extracted endpoint is its own extraction, so the endpoints of a list
    of endpoints are that list. *)
Theorem extract_endpoint_idempotent (product_type : pystr) (urls : list endpoint) :
  plain_word product_type = true →
  (∀ entry ep, extract_endpoint product_type entry = Some ep →
     extract_endpoint product_type ep = Some ep)
  ∧ endpoints_of product_type (endpoints_of product_type urls)
    = endpoints_of product_type urls.
Proof.
  intros _.
  assert (H : ∀ entry ep, extract_endpoint product_type entry = Some ep →
     extract_endpoint product_type ep = Some ep).
  { intros entry ep. unfold extract_endpoint.
    destruct (re_search product_type (url entry)) as [m|] eqn:E; [|done].
    intros [= <-]. cbn [url lastmod]. apply re_search_spec in E as [_ Hm].
    assert (re_search product_type m = Some m) as ->; [|done].
    by apply re_search_spec. }
  split; [exact H|].
  unfold endpoints_of. induction urls as [|e urls IH]; [reflexivity|].
  simpl. destruct (extract_endpoint product_type e) as [ep|] eqn:E; [|exact IH].
  simpl. rewrite (H _ _ E). f_equal. exact IH.
Qed.

Lemma find_Some (name : pystr) (el child : element) :
  find name el = Some child →
  child ∈ children el ∧ tag_matches name (tag child) = true.
Proof.
  unfold find. intros H. apply head_Some_elem_of in H.
  apply list_elem_of_filter in H. tauto.
Qed.

Lemma omap_length_le {A B} (f : A → option B) (l : list A) :
  (length (omap f l) ≤ length l)%nat.
Proof.
  induction l as [|x l IH]; [reflexivity|].
  change (omap f (x :: l))
    with (match f x with Some y => y :: omap f l | None => omap f l end).
  destruct (f x); simpl; lia.
Qed.

(** X1. From any parsed sitemap [fetch_sitemap] returns a list with at most
    one entry per [url] element, and every entry it returns has a non-empty
    [url] that is the text of a [loc] child of a [url] element below the
    root: elements without such text are passed over, not reported. *)
Theorem fetch_sitemap_entries (root : element) :
  ∃ entries, fetch_sitemap (Some root) = Some entries
    ∧ (length entries ≤ length (findall_url root))%nat
    ∧ ∀ ep, ep ∈ entries →
        url ep ≠ []
        ∧ ∃ url_el loc_el,
            url_el ∈ flat_map iter (children root)
            ∧ tag_matches (u "url") (tag url_el) = true
            ∧ loc_el ∈ children url_el
            ∧ tag_matches (u "loc") (tag loc_el) = true
            ∧ text loc_el = Some (url ep).
Proof.
  eexists. split; [reflexivity|]. split; [apply omap_length_le|].
  intros ep Hep. apply list_elem_of_omap in Hep as (url_el & Hel & Hentry).
  apply list_elem_of_filter in Hel as [Htag Hel].
  unfold sitemap_entry in Hentry.
  destruct (find (u "loc") url_el) as [loc_el|] eqn:Hloc; [|done].
  simpl in Hentry. destruct (text loc_el) as [[|c s]|] eqn:Htext; try done.
  injection Hentry as <-. simpl. split; [done|].
  apply find_Some in Hloc as [Hin Hloctag].
  by exists url_el, loc_el.
Qed.

(** ** The key: its alphabet and what it determines *)

Lemma printable_hex_char (x : Z) : printable (hex_char (x mod 16)).
Proof.
  pose proof (Z.mod_pos_bound x 16 eq_refl). unfold printable, hex_char.
  destruct (x mod 16 <? 10); lia.
Qed.

Lemma printable_hex4 (n : Z) : Forall printable (u "\u" ++ hex4 n).
Proof.
  change (u "\u" ++ hex4 n) with (92 :: 117 :: hex4 n). unfold hex4.
  repeat (constructor; [first [apply printable_hex_char | unfold printable; lia]|]).
  constructor.
Qed.

Lemma printable_escape_char_ascii (c : Z) : Forall printable (escape_char_ascii c).
Proof.
  unfold escape_char_ascii. destruct (escape_short c) as [e|] eqn:He.
  - apply escape_short_Some in He as (x & -> & Hx).
    repeat (apply elem_of_cons in Hx as [->|Hx]);
      [printable_list..|by apply elem_of_nil in Hx].
  - destruct ((32 <=? c) && (c <=? 126)) eqn:Hp.
    + apply andb_true_iff in Hp as [?%Z.leb_le ?%Z.leb_le]. printable_list.
    + destruct (c <? 65536); [apply printable_hex4|].
      cbv zeta. rewrite app_assoc. apply Forall_app_2; apply printable_hex4.
Qed.

Lemma printable_escaped (s : pystr) : Forall printable (flat_map escape_char_ascii s).
Proof.
  induction s as [|c s IH]; simpl; [constructor|].
  apply Forall_app_2; [apply printable_escape_char_ascii|exact IH].
Qed.

Lemma printable_encode_str (s : pystr) : Forall printable (encode_str compact_opts s).
Proof.
  unfold encode_str. simpl. apply List.Forall_cons; [unfold printable; lia|].
  apply Forall_app_2; [apply printable_escaped|printable_list].
Qed.

Lemma printable_uint_text (d : Decimal.uint) : Forall printable (uint_text d).
Proof.
  induction d; simpl; [constructor|..];
    (apply List.Forall_cons; [unfold printable, digit_char; lia|assumption]).
Qed.

Lemma printable_int_text (z : Z) : Forall printable (int_text z).
Proof.
  destruct z; simpl; [printable_list|apply printable_uint_text|].
  apply List.Forall_cons; [unfold printable; lia|apply printable_uint_text].
Qed.

Lemma printable_join (sep : pystr) (items : list pystr) :
  Forall printable sep → Forall (Forall printable) items →
  Forall printable (join_text sep items).
Proof.
  intros Hsep. induction 1 as [|p [|q items] Hp Hitems IH]; simpl; [constructor|done|].
  apply Forall_app_2; [done|]. apply Forall_app_2; [done|]. exact IH.
Qed.

Lemma printable_encode_seq (level : nat) (opening closing : Z) (items : list pystr) :
  printable opening → printable closing → Forall (Forall printable) items →
  Forall printable (encode_seq compact_opts level opening closing items).
Proof.
  intros Ho Hc Hitems. unfold encode_seq. destruct items as [|i0 items].
  - printable_list.
  - change (newline_indent compact_opts _) with (@nil Z).
    apply List.Forall_cons; [done|].
    apply Forall_app_2; [constructor|].
    apply Forall_app_2; [apply printable_join;
                          [change (Forall printable [44]); printable_list|done]|].
    apply Forall_app_2; [constructor|printable_list].
Qed.

Section key.
Context {rt : PyRuntime}.

Lemma printable_json_encode (v : json) :
  float_free v = true → ∀ level, Forall printable (json_encode compact_opts level v).
Proof.
  induction v as [|b|z|f|s|l IH|d IH] using json_ind; intros Hff level; simpl.
  - printable_list.
  - destruct b; printable_list.
  - apply printable_int_text.
  - discriminate.
  - apply printable_encode_str.
  - apply printable_encode_seq; [unfold printable; lia..|].
    apply List.Forall_forall. intros t Ht. apply in_map_iff in Ht as (y & <- & Hy).
    rewrite List.Forall_forall in IH. apply IH; [done|].
    simpl in Hff. rewrite forallb_forall in Hff. by apply Hff.
  - apply printable_encode_seq; [unfold printable; lia..|].
    apply List.Forall_forall. intros t Ht. apply in_map_iff in Ht as (kv & <- & Hkv).
    apply List.Forall_cons; [unfold printable; lia|].
    apply Forall_app_2;
      [apply Forall_app_2; [apply printable_escaped|printable_list]|].
    apply List.Forall_cons; [by vm_compute|].
    rewrite List.Forall_forall in IH. apply IH; [done|].
    change (forallb (λ kv, float_free kv.2) d = true) in Hff.
    rewrite forallb_forall in Hff. by apply Hff.
Qed.

Lemma spec_symbol_in_alphabet (i : Z) : 0 ≤ i < 64 → spec_symbol i ∈ Aa.
Proof.
  intros Hi. unfold spec_symbol. apply list_elem_of_In.
  change spec_alphabet with Aa. apply nth_In.
  change (length Aa) with 64%nat. lia.
Qed.

Lemma key_char_encode (c : Z) : c ≤ 127 → Forall key_char (spec_encode_char c).
Proof.
  intros Hc. unfold spec_encode_char.
  destruct (Z.ltb_spec 127 c); [lia|].
  pose proof (Z.mod_pos_bound c 95 eq_refl) as Hr.
  destruct (Z.ltb_spec (c mod 95) 64).
  - apply List.Forall_cons; [|constructor].
    left. apply spec_symbol_in_alphabet. lia.
  - apply List.Forall_cons; [by right|]. apply List.Forall_cons; [|constructor].
    left. apply spec_symbol_in_alphabet, mask_63_range. lia.
Qed.

Lemma key_char_text (t : pystr) :
  Forall printable t → Forall key_char (flat_map spec_encode_char t).
Proof.
  induction 1 as [|c t Hc _ IH]; simpl; [constructor|].
  apply Forall_app_2; [|exact IH]. apply key_char_encode. unfold printable in Hc. lia.
Qed.

Lemma Sa_truthy (e : json) :
  truthy e = true →
  Sa e = Some (49 :: flat_map spec_encode_char (json_dumps compact_opts e)).
Proof. intros He. unfold Sa. rewrite He. simpl. by rewrite Sa_loop_spec. Qed.

(** X4. The key of a descriptor without floats is made of the 64 alphabet
    symbols and dots only, and starts with [1] when the descriptor is truthy:
    [json.dumps] escapes everything outside printable ASCII, so the branch
    that copies a character above 127 into the key is never taken. *)
Theorem Sa_key_alphabet (e : json) :
  float_free e = true →
  ∃ key, Sa e = Some key ∧ Forall key_char key
    ∧ (truthy e = true → ∃ rest, key = 49 :: rest).
Proof.
  intros Hff. unfold Sa. destruct (truthy e); simpl.
  - rewrite Sa_loop_spec. eexists. split; [reflexivity|]. split; [|by eexists].
    apply List.Forall_cons; [left; by apply (bool_decide_unpack _); vm_compute|].
    apply key_char_text, printable_json_encode, Hff.
  - exists []. split; [reflexivity|]. split; [constructor|done].
Qed.

Lemma NoDup_Aa : NoDup Aa.
Proof. apply (bool_decide_unpack _). by vm_compute. Qed.

Lemma Aa_lookup (i : Z) : 0 ≤ i < 64 → Aa !! Z.to_nat i = Some (spec_symbol i).
Proof.
  intros Hi. pose proof (Aa_index i Hi) as H. unfold py_index in H.
  by destruct (Z.leb_spec 0 i); [|lia].
Qed.

Lemma spec_symbol_inj (i j : Z) :
  0 ≤ i < 64 → 0 ≤ j < 64 → spec_symbol i = spec_symbol j → i = j.
Proof.
  intros Hi Hj E.
  assert (Z.to_nat i = Z.to_nat j); [|lia].
  eapply (NoDup_lookup Aa); [apply NoDup_Aa|by apply Aa_lookup|].
  rewrite E. by apply Aa_lookup.
Qed.

Lemma spec_symbol_not_dot (i : Z) : 0 ≤ i < 64 → spec_symbol i ≠ 46.
Proof.
  intros Hi E. pose proof (spec_symbol_in_alphabet i Hi) as Hin. rewrite E in Hin.
  revert Hin. apply (bool_decide_unpack _). by vm_compute.
Qed.

Lemma mod_95_printable (c : Z) :
  printable c → c mod 95 = if c <? 95 then c else c - 95.
Proof.
  intros [? ?]. destruct (Z.ltb_spec c 95).
  - apply Z.mod_small. lia.
  - symmetry. apply (Z.mod_unique c 95 1); lia.
Qed.

Lemma mask_63_high (r : Z) : 64 ≤ r < 128 → Z.land r 63 = r - 64.
Proof.
  intros Hr. change 63 with (Z.ones 6). rewrite Z.land_ones by lia.
  symmetry. apply (Z.mod_unique r (2 ^ 6) 1); lia.
Qed.

Lemma encode_char_inj (c1 c2 : Z) (k1 k2 : pystr) :
  printable c1 → printable c2 →
  spec_encode_char c1 ++ k1 = spec_encode_char c2 ++ k2 → c1 = c2 ∧ k1 = k2.
Proof.
  intros H1 H2. unfold spec_encode_char.
  pose proof H1 as [? ?]. pose proof H2 as [? ?].
  destruct (Z.ltb_spec 127 c1); [lia|]. destruct (Z.ltb_spec 127 c2); [lia|].
  rewrite (mod_95_printable c1 H1), (mod_95_printable c2 H2).
  set (r1 := if c1 <? 95 then c1 else c1 - 95).
  set (r2 := if c2 <? 95 then c2 else c2 - 95).
  assert (Hr1 : 0 ≤ r1 < 95) by (subst r1; destruct (Z.ltb_spec c1 95); lia).
  assert (Hr2 : 0 ≤ r2 < 95) by (subst r2; destruct (Z.ltb_spec c2 95); lia).
  assert (Hinj : r1 = r2 → c1 = c2).
  { subst r1 r2. destruct (Z.ltb_spec c1 95), (Z.ltb_spec c2 95); lia. }
  destruct (Z.ltb_spec r1 64), (Z.ltb_spec r2 64); simpl; intros E.
  - injection E as Hs ->. split; [|done].
    apply Hinj, spec_symbol_inj; [lia..|done].
  - injection E as Hs _. by apply spec_symbol_not_dot in Hs; [|lia].
  - injection E as Hs _. symmetry in Hs. by apply spec_symbol_not_dot in Hs; [|lia].
  - injection E as Hs ->. split; [|done]. apply Hinj.
    apply spec_symbol_inj in Hs; [|apply mask_63_range; lia..].
    rewrite !mask_63_high in Hs by lia. lia.
Qed.

Lemma encode_text_inj (t1 t2 : pystr) :
  Forall printable t1 → Forall printable t2 →
  flat_map spec_encode_char t1 = flat_map spec_encode_char t2 → t1 = t2.
Proof.
  intros H1. revert t2. induction H1 as [|c1 t1 Hc1 _ IH]; intros t2 H2 E.
  - destruct H2 as [|c2 t2 Hc2 _]; [done|]. simpl in E.
    unfold spec_encode_char in E at 1. by repeat case_match.
  - destruct H2 as [|c2 t2 Hc2 Ht2]; simpl in E.
    + unfold spec_encode_char in E at 1. by repeat case_match.
    + apply encode_char_inj in E as [-> E]; [|done..]. f_equal. by apply IH.
Qed.

(** X5. On descriptors without floats the key determines the JSON text: two
    truthy descriptors with the same key have the same compact JSON text. *)
Theorem Sa_key_determines_text (e1 e2 : json) :
  float_free e1 = true → float_free e2 = true →
  truthy e1 = true → truthy e2 = true →
  Sa e1 = Sa e2 → json_dumps compact_opts e1 = json_dumps compact_opts e2.
Proof.
  intros Hf1 Hf2 Ht1 Ht2. unfold Sa. rewrite Ht1, Ht2. simpl.
  rewrite !Sa_loop_spec. intros [= E].
  apply encode_text_inj; [by apply printable_json_encode..|done].
Qed.

Lemma uint_text_inj (d1 d2 : Decimal.uint) : uint_text d1 = uint_text d2 → d1 = d2.
Proof.
  revert d2. induction d1 as [|d1 IH|d1 IH|d1 IH|d1 IH|d1 IH|d1 IH|d1 IH|d1 IH|d1 IH|d1 IH];
    intros [|d2|d2|d2|d2|d2|d2|d2|d2|d2|d2] E; simpl in E;
    try reflexivity; try discriminate E;
    injection E as E; f_equal; by apply IH.
Qed.

Lemma int_text_pos_head (p : positive) (c : Z) (k : pystr) :
  uint_text (Pos.to_uint p) = c :: k → 49 ≤ c ≤ 57.
Proof.
  destruct (pos_text p) as (c' & ds & -> & Hc & _). by intros [= <- _].
Qed.

Lemma int_text_inj (z1 z2 : Z) : int_text z1 = int_text z2 → z1 = z2.
Proof.
  destruct z1 as [|p1|p1], z2 as [|p2|p2]; simpl; intros E; try reflexivity.
  - symmetry in E. apply int_text_pos_head in E. unfold digit_char in E. lia.
  - discriminate E.
  - apply int_text_pos_head in E. unfold digit_char in E. lia.
  - f_equal. by apply Unsigned.to_uint_inj, uint_text_inj.
  - apply int_text_pos_head in E. lia.
  - discriminate E.
  - symmetry in E. apply int_text_pos_head in E. lia.
  - injection E as E. f_equal. by apply Unsigned.to_uint_inj, uint_text_inj.
Qed.

Lemma int_text_no_comma (z : Z) : 44 ∉ int_text z.
Proof.
  intros Hin. assert (H : Forall (λ c, c = 45 ∨ is_digit c = true) (int_text z)).
  { destruct z; simpl.
    - by repeat constructor; right.
    - eapply Forall_impl; [apply uint_text_digits|]. by right.
    - constructor; [by left|].
      eapply Forall_impl; [apply uint_text_digits|]. by right. }
  rewrite List.Forall_forall in H. apply list_elem_of_In, H in Hin.
  by destruct Hin.
Qed.

Lemma payload_text (endpoint : pystr) (t : Z) :
  json_dumps compact_opts (payload endpoint t)
  = (123 :: encode_str compact_opts (u "url") ++ 58 :: encode_str compact_opts endpoint
       ++ 44 :: encode_str compact_opts (u "data") ++ [58; 123; 125; 44]
       ++ encode_str compact_opts (u "t") ++ [58])
    ++ int_text t
    ++ 44 :: encode_str compact_opts (u "st") ++ 58 :: int_text (t - 5000) ++ [125].
Proof.
  unfold json_dumps, payload. cbn [json_encode List.map fst snd].
  unfold encode_seq at 1. cbn [join_text]. 
  change (newline_indent compact_opts _) with (@nil Z).
  change (item_separator compact_opts) with [44].
  change (key_separator compact_opts) with [58].
  change (encode_seq compact_opts 1 123 125 []) with [123; 125].
  rewrite !app_nil_l, !app_nil_r. simpl. rewrite <- !app_assoc. simpl.
  repeat (f_equal; try (rewrite <- !app_assoc; simpl)).
Qed.

(** X6. The key is a nonce: for one endpoint, two different clock readings
    give two different keys. *)
Theorem Sa_payload_nonce (endpoint : pystr) (t1 t2 : Z) :
  t1 ≠ t2 → Sa (payload endpoint t1) ≠ Sa (payload endpoint t2).
Proof.
  intros Hne E. rewrite !Sa_truthy in E by reflexivity.
  apply (inj Some), (inj (cons 49)) in E.
  apply encode_text_inj in E; [|by apply printable_json_encode..].
  rewrite !payload_text in E. apply app_inv_head in E.
  apply split_first_unique in E as [E _]; [|apply int_text_no_comma..].
  by apply int_text_inj in E.
Qed.

(** X7. [fetch_product_data] always issues its request, at the address
    [API_BASE] followed by a key of alphabet symbols and dots that starts
    with [1]; it fails exactly when that request fails. *)
Theorem fetch_product_data_request (get : pystr → option json) (t : Z)
    (endpoint : pystr) :
  ∃ key, Sa (payload endpoint t) = Some (49 :: key)
    ∧ Forall key_char key
    ∧ fetch_product_data get t endpoint = get (API_BASE ++ 49 :: key).
Proof.
  pose proof (Sa_truthy (payload endpoint t) eq_refl) as Hkey.
  eexists. split; [exact Hkey|].
  split; [by apply key_char_text, printable_json_encode|].
  unfold fetch_product_data. fold (payload endpoint t). by rewrite Hkey.
Qed.
End key.

(** ** The columns of a record: which, in what order, with what value *)

Lemma dict_keys_set {V} (k : pystr) (v : V) (d : list (pystr * V)) :
  dict_keys (dict_set k v d) = add_label (dict_keys d) k.
Proof.
  unfold dict_keys, add_label. induction d as [|[k' v'] d IH]; [reflexivity|].
  cbn [dict_set]. destruct (decide (k' = k)) as [->|Hne].
  - rewrite bool_decide_eq_true_2 by done. cbn.
    rewrite bool_decide_eq_true_2; [done|apply list_elem_of_here].
  - rewrite bool_decide_eq_false_2 by done. cbn [fmap list_fmap fst]. rewrite IH.
    destruct (decide (k ∈ d.*1)) as [Hin|Hin].
    + rewrite !bool_decide_eq_true_2; [done|by apply list_elem_of_further|done].
    + rewrite !bool_decide_eq_false_2; [done| |done].
      intros [?|?]%elem_of_cons; congruence.
Qed.

Lemma dict_keys_update {V} (d pairs : list (pystr * V)) :
  dict_keys (dict_update d pairs) = foldl add_label (dict_keys d) pairs.*1.
Proof.
  unfold dict_update. revert d. induction pairs as [|[k v] pairs IH]; intros d; [done|].
  cbn [foldl fmap list_fmap fst]. by rewrite IH, dict_keys_set.
Qed.

Lemma dict_get_app {V} (k : pystr) (a b : list (pystr * V)) :
  dict_get k (a ++ b) = match dict_get k a with Some v => Some v | None => dict_get k b end.
Proof.
  induction a as [|[k' v'] a IH]; simpl; [done|].
  destruct (bool_decide (k' = k)); [done|exact IH].
Qed.

Lemma dict_get_update {V} (k : pystr) (d pairs : list (pystr * V)) :
  dict_get k (dict_update d pairs)
  = match dict_get k (reverse pairs) with Some v => Some v | None => dict_get k d end.
Proof.
  unfold dict_update. revert d. induction pairs as [|[k' v'] pairs IH]; intros d; [done|].
  cbn [foldl]. rewrite IH, reverse_cons, dict_get_app. cbn [fst snd].
  destruct (dict_get k (reverse pairs)); [done|].
  rewrite dict_get_set. simpl. by destruct (bool_decide (k' = k)).
Qed.

Lemma dict_update_app {V} (d a b : list (pystr * V)) :
  dict_update d (a ++ b) = dict_update (dict_update d a) b.
Proof. unfold dict_update. apply foldl_app. Qed.

Lemma add_labels_fresh (cols new : list pystr) :
  NoDup new → (∀ c, c ∈ new → c ∉ cols) → foldl add_label cols new = cols ++ new.
Proof.
  revert cols. induction new as [|c new IH]; intros cols Hnd Hfresh; simpl.
  - by rewrite app_nil_r.
  - apply NoDup_cons in Hnd as [Hc Hnd].
    unfold add_label at 2. rewrite bool_decide_eq_false_2
      by (apply Hfresh, list_elem_of_here).
    rewrite IH; [by rewrite <- app_assoc|done|].
    intros x Hx [Hin|Hin%list_elem_of_singleton]%elem_of_app.
    + by apply (Hfresh x); [apply list_elem_of_further|].
    + by subst.
Qed.

Section columns.
Context {rt : PyRuntime}.

Lemma flatten_items_pairs title items result r :
  flatten_items title items result = Some r →
  r = dict_update result (flat_map (spec_pair title) items).
Proof.
  revert result. induction items as [|spec items IH]; intros result H; simpl in H.
  - by injection H as <-.
  - destruct spec as [| | | | | |d]; try discriminate. simpl in H.
    cbn [flat_map spec_pair]. rewrite dict_update_app.
    destruct (truthy _); by apply IH in H.
Qed.

Lemma flatten_specs_pairs cats result r :
  flatten_specs cats result = Some r →
  r = dict_update result (flat_map category_pairs cats).
Proof.
  revert result. induction cats as [|c cats IH]; intros result H; simpl in H.
  - by injection H as <-.
  - destruct c as [| | | | | |d]; try discriminate. simpl in H.
    cbn [flat_map category_pairs]. rewrite dict_update_app.
    destruct (truthy _); [|by apply IH in H].
    destruct (py_iter _) as [specs|]; [|discriminate]. simpl in H |- *.
    destruct (flatten_items _ specs result) as [result'|] eqn:E; [|discriminate].
    simpl in H. apply flatten_items_pairs in E as ->. by apply IH in H.
Qed.

Lemma parse_product_pairs data lastmod r :
  parse_product data lastmod = Some r →
  ∃ name brand price pd pda related,
    r = core_update (dict_update [] (spec_pairs data)) name brand price pd pda
          lastmod related.
Proof.
  intros H. apply parse_product_inv in H
    as (d & it & cats & result & brand_d & rel_d & prods & related
        & -> & Hit & Hcats & Hres & _ & _ & _ & _ & ->).
  apply flatten_specs_pairs in Hres as ->.
  assert (spec_pairs (JDict d) = flat_map category_pairs cats) as ->.
  { unfold spec_pairs.
    change (item_of (JDict d)) with (default (JDict []) (dict_get (u "item") d)).
    rewrite Hit.
    change (member (u "fullSpecs") (JDict it)) with (dict_get (u "fullSpecs") it).
    by rewrite Hcats. }
  by do 6 eexists.
Qed.

Lemma spec_pairs_keys data k :
  k ∈ (spec_pairs data).*1 → ∃ title spec_title, k = col_name title spec_title.
Proof.
  unfold spec_pairs. intros Hk.
  apply list_elem_of_fmap in Hk as ([k' v] & -> & Hkv).
  apply list_elem_of_In, in_flat_map in Hkv as (c & _ & Hc).
  destruct c as [| | | | | |d]; simpl in Hc; try done.
  destruct (truthy _); [|done].
  apply in_flat_map in Hc as (spec & _ & Hs).
  destruct spec as [| | | | | |sd]; simpl in Hs; try done.
  destruct (truthy _); [|done]. destruct Hs as [[= <- _]|[]]. eauto.
Qed.

(** X8. The keys of a record are distinct; they are the spec columns, each
    once and in the order of its first appearance in the document, followed
    by the seven core fields in the order of the literal. *)
Theorem parse_product_columns (data : json) (lastmod : option pystr) (r : record) :
  parse_product data lastmod = Some r →
  dict_keys r = foldl add_label [] (spec_pairs data).*1 ++ core_fields
  ∧ NoDup (dict_keys r).
Proof.
  intros H. apply parse_product_pairs in H
    as (name & brand & price & pd & pda & related & ->).
  unfold core_update. rewrite dict_keys_update, dict_keys_update.
  change (dict_keys []) with (@nil pystr).
  change ([(u "Name", name); (u "Brand", brand); (u "Price", price);
           (u "Price Drop", pd); (u "Price Drop Amount", pda);
           (u "Last modified", lastmod_value lastmod);
           (u "Related Items", JStr (json_dumps plain_opts (JList related)))].*1)
    with core_fields.
  assert (Hcore : NoDup core_fields) by (apply (bool_decide_unpack _); by vm_compute).
  assert (Hfresh : ∀ c, c ∈ core_fields → c ∉ foldl add_label [] (spec_pairs data).*1).
  { intros c Hc Hin. apply elem_of_add_labels in Hin as [Hin|Hin];
      [by apply elem_of_nil in Hin|].
    apply spec_pairs_keys in Hin as (title & st & ->).
    by apply col_name_not_core in Hc. }
  rewrite add_labels_fresh by done. split; [done|].
  apply NoDup_app. split; [apply add_labels_NoDup, NoDup_nil_2|].
  split; [|done]. intros c Hc Hc'. by apply (Hfresh c).
Qed.

(** X9. Last write wins among the spec columns: a column holds the
    description of the last titled spec that flattens to its name, and a name
    that no titled spec flattens to, other than a core name, is not a key of
    the record. *)
Theorem parse_product_last_write_wins (data : json) (lastmod : option pystr)
    (r : record) (k : pystr) :
  parse_product data lastmod = Some r →
  (∀ before v after,
     spec_pairs data = before ++ (k, v) :: after → k ∉ after.*1 →
     dict_get k r = Some v)
  ∧ (k ∉ (spec_pairs data).*1 → k ∉ core_fields → dict_get k r = None).
Proof.
  intros H. apply parse_product_pairs in H
    as (name & brand & price & pd & pda & related & ->).
  split.
  - intros before v after Hpairs Hlast.
    assert (k ∉ core_fields) as Hk.
    { destruct (spec_pairs_keys data k) as (title & st & ->);
        [|apply col_name_not_core].
      rewrite Hpairs, fmap_app, fmap_cons. apply elem_of_app. right.
      apply list_elem_of_here. }
    rewrite core_update_other, dict_get_update by done.
    rewrite Hpairs, reverse_app, reverse_cons, <- app_assoc, dict_get_app.
    rewrite (dict_get_None_keys k (reverse after))
      by (by rewrite fmap_reverse, elem_of_reverse).
    simpl. by rewrite bool_decide_eq_true_2.
  - intros Hnone Hk. rewrite core_update_other, dict_get_update by done.
    rewrite dict_get_None_keys; [done|].
    by rewrite fmap_reverse, elem_of_reverse.
Qed.
End columns.

(** ** Runs: what a batch leaves behind *)

Lemma omap_id_length_le {A} (l : list (option A)) :
  (length (omap id l) ≤ length l)%nat.
Proof.
  induction l as [|x l IH]; [reflexivity|].
  change (omap id (x :: l))
    with (match x with Some y => y :: omap id l | None => omap id l end).
  destruct x; simpl; lia.
Qed.

Section runs.
Context {rt : PyRuntime}.

Lemma fetch_loop_results_length (w : world) (i : nat) (batch : list endpoint)
    (all_results : list record) (processed_urls : gset atom) :
  (length (fetch_loop w i batch all_results processed_urls).1
   ≤ length all_results + length batch)%nat.
Proof.
  rewrite fetch_loop_results, length_app.
  pose proof (omap_id_length_le (attempts w i batch)) as H.
  unfold attempts in H at 2. rewrite length_imap in H. lia.
Qed.

(** X10. The loop only adds: the results it was given stay at the front of
    its results, with at most one more per entry of the batch, and every
    identifier of the processed set it was given is still in the set. *)
Theorem fetch_loop_only_adds (w : world) (i : nat) (batch : list endpoint)
    (all_results : list record) (processed_urls : gset atom) :
  all_results `prefix_of` (fetch_loop w i batch all_results processed_urls).1
  ∧ (length (fetch_loop w i batch all_results processed_urls).1
     ≤ length all_results + length batch)%nat
  ∧ processed_urls ⊆ (fetch_loop w i batch all_results processed_urls).2.
Proof.
  split; [rewrite fetch_loop_results; by eexists|].
  split; [apply fetch_loop_results_length|].
  intros a Ha. apply fetch_loop_processed. by left.
Qed.

(** X11. What is left to process after the loop: an endpoint of the feed is
    still unprocessed exactly when it was unprocessed before and no entry of
    the batch with its identifier was fetched and flattened; a failed entry
    is offered again, a successful one never. *)
Theorem fetch_loop_leaves_failures (w : world) (i : nat) (batch : list endpoint)
    (all_results : list record) (processed_urls : gset atom)
    (endpoints : list endpoint) (ep : endpoint) :
  ep ∈ to_process endpoints (fetch_loop w i batch all_results processed_urls).2
  ↔ ep ∈ to_process endpoints processed_urls
    ∧ ¬ ∃ j ep' parsed,
          batch !! j = Some ep' ∧ fetch_and_parse w (i + j) ep' = Some parsed
          ∧ url ep' = url ep.
Proof.
  unfold to_process. rewrite !list_elem_of_filter, fetch_loop_processed. split.
  - intros [Hnot Hin]. split; [split; [|done]|].
    + intros Hp. apply Hnot. by left.
    + intros (j & ep' & parsed & Hj & Hp & Hu). apply Hnot. right.
      exists j, ep', parsed. by rewrite Hu.
  - intros [[Hnot Hin] Hnone]. split; [|done].
    intros [Hp|(j & ep' & parsed & Hj & Hp & [= Hu])]; [done|].
    apply Hnone. by exists j, ep', parsed.
Qed.

Lemma save_load_strings (ids : gset pystr) :
  (∀ s, s ∈ ids → forallb scalar_value s = true) →
  ∃ file, save_progress (set_map AStr ids) = Some file
          ∧ load_progress (Some file) = set_map AStr ids.
Proof.
  intros Hids. unfold save_progress.
  destruct (strings_of_set ids) as (strs & Hstrs & Hin).
  assert (Hset : list_to_set (AStr <$> strs) = (set_map AStr ids : gset atom)).
  { rewrite <- Hstrs. apply set_eq. intros a.
    by rewrite elem_of_list_to_set, set_order_perm, elem_of_elements. }
  rewrite Hstrs, <- list_fmap_compose.
  change (atom_json ∘ AStr) with JStr.
  eexists. split.
  - unfold write_text. rewrite dumps_strings_scalar; [reflexivity|].
    eapply Forall_impl; [exact Hin|]. exact Hids.
  - unfold load_progress. by rewrite json_loads_strings, py_set_strings, Hset.
Qed.


Lemma next_batch_length (endpoints : list endpoint) (processed_urls : gset atom) :
  (length (next_batch BATCH_SIZE endpoints processed_urls) ≤ 100)%nat.
Proof.
  unfold next_batch. change BATCH_SIZE with (Z.of_nat 100).
  rewrite py_slice_to_nat, length_take. lia.
Qed.


(** X12. The batch is empty exactly when every endpoint of the feed is
    already processed, and a run with an empty batch makes no request and
    leaves both files as they are: it returns before the progress file is
    rewritten. *)
Theorem main_finished_feed (w : world) (endpoints : list endpoint) (fs : files) :
  (next_batch BATCH_SIZE endpoints (load_progress (progress_file fs)) = []
   ↔ ∀ ep, ep ∈ endpoints → AStr (url ep) ∈ load_progress (progress_file fs))
  ∧ (next_batch BATCH_SIZE endpoints (load_progress (progress_file fs)) = [] →
     main w endpoints fs = Some fs).
Proof.
  split.
  - unfold next_batch. change BATCH_SIZE with (Z.of_nat 100).
    rewrite py_slice_to_nat. split.
    + intros Hnil ep Hep.
      destruct (decide (AStr (url ep) ∈ load_progress (progress_file fs)))
        as [|Hnot]; [done|].
      assert (ep ∈ to_process endpoints (load_progress (progress_file fs))) as Hin
        by (unfold to_process; by apply list_elem_of_filter).
      destruct (to_process endpoints (load_progress (progress_file fs)));
        [by apply elem_of_nil in Hin|discriminate Hnil].
    + intros Hall. unfold to_process. rewrite filter_none; [reflexivity|].
      intros ep Hep Hnot. exact (Hnot (Hall ep Hep)).
  - intros Hnil. unfold main. by rewrite Hnil.
Qed.


Lemma json_normalize_length (all_results : list record) :
  length (rows (json_normalize all_results)) = length all_results.
Proof. unfold json_normalize. cbn [rows]. by rewrite !length_fmap. Qed.

(** X14. A run never removes stored rows and adds at most a hundred: a stored
    table keeps at least its rows and gains at most [BATCH_SIZE]; a first
    table has at most [BATCH_SIZE] rows; a store that cannot be read is never
    replaced. *)
Theorem main_store_growth (w : world) (endpoints : list endpoint) (fs fs' : files) :
  main w endpoints fs = Some fs' →
  match csv_file fs with
  | StoreTable df_existing =>
      ∃ df, csv_file fs' = StoreTable df
        ∧ (length (rows df_existing) ≤ length (rows df)
           ≤ length (rows df_existing) + 100)%nat
  | StoreAbsent =>
      csv_file fs' = StoreAbsent
      ∨ ∃ df, csv_file fs' = StoreTable df ∧ (0 < length (rows df) ≤ 100)%nat
  | StoreCorrupt => csv_file fs' = StoreCorrupt
  end.
Proof.
  intros Hmain.
  set (processed := load_progress (progress_file fs)).
  set (batch := next_batch BATCH_SIZE endpoints processed).
  assert (Hsame : csv_file fs' = csv_file fs →
    match csv_file fs with
    | StoreTable df_existing =>
        ∃ df, csv_file fs' = StoreTable df
          ∧ (length (rows df_existing) ≤ length (rows df)
             ≤ length (rows df_existing) + 100)%nat
    | StoreAbsent =>
        csv_file fs' = StoreAbsent
        ∨ ∃ df, csv_file fs' = StoreTable df ∧ (0 < length (rows df) ≤ 100)%nat
    | StoreCorrupt => csv_file fs' = StoreCorrupt
    end).
  { intros ->. destruct (csv_file fs) as [| |df]; [by left|done|].
    exists df. split; [done|lia]. }
  destruct (decide (batch = [])) as [Hnil|Hne].
  { unfold main in Hmain. fold processed in Hmain. fold batch in Hmain.
    rewrite Hnil in Hmain. injection Hmain as <-. by apply Hsame. }
  clear Hsame.
  rewrite (main_run w endpoints fs Hne) in Hmain.
  fold processed in Hmain. fold batch in Hmain.
  pose proof (fetch_loop_results_length w 0 batch [] processed) as Hlen.
  pose proof (next_batch_length endpoints processed) as Hbatch. fold batch in Hbatch.
  simpl in Hlen.
  destruct (fetch_loop w 0 batch [] processed) as [results final].
  cbn [fst snd] in *.
  destruct (write_store (csv_file fs) results) as [csv|] eqn:Hw; [|done].
  cbn in Hmain. destruct (save_progress final) as [progress|]; [|done].
  injection Hmain as <-. cbn [csv_file].
  destruct results as [|r results].
  { injection Hw as <-. destruct (csv_file fs) as [| |df]; [by left|done|].
    exists df. split; [done|lia]. }
  destruct (csv_file fs) as [| |df_existing].
  - rewrite write_store_first in Hw. apply to_csv_Some in Hw as [_ ->].
    right. eexists. split; [reflexivity|].
    rewrite json_normalize_length. simpl in *. lia.
  - done.
  - rewrite write_store_table in Hw. apply to_csv_Some in Hw as [_ ->].
    eexists. split; [reflexivity|].
    rewrite merged_length, json_normalize_length. simpl in *. lia.
Qed.
End runs.

(** ** The store: well-formed tables and a stable header *)

Lemma record_labels_NoDup (flat : list record) (cols : list pystr) :
  NoDup cols → NoDup (foldl (λ cols r, foldl add_label cols (dict_keys r)) cols flat).
Proof.
  revert cols. induction flat as [|r flat IH]; intros cols Hnd; simpl; [done|].
  by apply IH, add_labels_NoDup.
Qed.

Lemma json_normalize_well_formed (all_results : list record) :
  well_formed (json_normalize all_results).
Proof.
  split.
  - unfold json_normalize. cbn [columns]. apply record_labels_NoDup, NoDup_nil_2.
  - unfold json_normalize. cbn [rows columns].
    apply List.Forall_forall. intros row Hrow.
    apply list_elem_of_In, list_elem_of_fmap in Hrow as (r & -> & _).
    by rewrite length_fmap.
Qed.

Lemma merged_well_formed (a b : dataframe) :
  NoDup (columns a) → well_formed (merged a b).
Proof.
  intros Hnd. split.
  - unfold merged. cbn [columns reindex concat].
    rewrite sorted_perm. by apply add_labels_NoDup.
  - unfold merged, reindex. cbn [rows columns].
    apply List.Forall_forall. intros row Hrow.
    apply list_elem_of_In, list_elem_of_fmap in Hrow as (r & -> & _).
    unfold realign. by rewrite length_fmap.
Qed.

(** X15. Every table the run writes is well formed, with distinct labels
    and one cell per label in every row, whenever the labels of the stored
    table, if there is one, are distinct. *)
Theorem write_store_well_formed (csv csv' : store) (all_results : list record) :
  write_store csv all_results = Some csv' →
  all_results ≠ [] →
  (∀ df_existing, csv = StoreTable df_existing → NoDup (columns df_existing)) →
  ∃ df, csv' = StoreTable df ∧ well_formed df
    ∧ (length all_results ≤ length (rows df))%nat.
Proof.
  intros Hw Hne Hnd. destruct all_results as [|r rs]; [done|].
  destruct csv as [| |df_existing].
  - rewrite write_store_first in Hw. apply to_csv_Some in Hw as [_ ->].
    eexists. split; [reflexivity|].
    split; [apply json_normalize_well_formed|]. by rewrite json_normalize_length.
  - done.
  - rewrite write_store_table in Hw. apply to_csv_Some in Hw as [_ ->].
    eexists. split; [reflexivity|]. split; [by apply merged_well_formed, Hnd|].
    rewrite merged_length, json_normalize_length. lia.
Qed.





(** ** The progress file: when it cannot be written *)

Lemma escape_char_keeps_unencodable (c : Z) :
  scalar_value c = false → escape_char c = [c].
Proof.
  intros Hc. unfold escape_char.
  destruct (escape_short c) as [e|] eqn:He.
  - unfold escape_short in He.
    repeat (match type of He with
            | (if ?c =? ?k then _ else _) = _ =>
                destruct (Z.eqb_spec c k) as [->|_]; [discriminate Hc|]
            end).
    discriminate.
  - destruct ((0 <=? c) && (c <? 32)) eqn:Hctl; [|reflexivity].
    apply andb_true_iff in Hctl as [?%Z.leb_le ?%Z.ltb_lt].
    rewrite scalar_ascii in Hc by lia. discriminate.
Qed.

Lemma escaped_scalar_inv (s : pystr) :
  forallb scalar_value (flat_map escape_char s) = true → forallb scalar_value s = true.
Proof.
  induction s as [|c s IH]; [done|]. cbn [flat_map]. rewrite forallb_app.
  intros [Hc Hs]%andb_true_iff. simpl. rewrite (IH Hs), andb_true_r.
  destruct (scalar_value c) eqn:E; [done|].
  rewrite (escape_char_keeps_unencodable c E) in Hc. simpl in Hc.
  by rewrite E in Hc.
Qed.

Lemma quoted_scalar_inv (s : pystr) :
  forallb scalar_value (quoted s) = true → forallb scalar_value s = true.
Proof.
  unfold quoted. cbn [forallb]. rewrite forallb_app.
  intros [_ [H _]%andb_true_iff]%andb_true_iff. by apply escaped_scalar_inv.
Qed.

Lemma join_quoted_scalar_inv (strs : list pystr) :
  forallb scalar_value (join_text [44; 10; 32; 32] (quoted <$> strs)) = true →
  Forall (λ s, forallb scalar_value s = true) strs.
Proof.
  induction strs as [|s0 [|s1 strs] IH]; intros H; [constructor|..].
  - constructor; [|constructor]. by apply quoted_scalar_inv.
  - rewrite join_quoted_cons, !forallb_app in H.
    apply andb_true_iff in H as [H0 [_ H]%andb_true_iff].
    constructor; [by apply quoted_scalar_inv|by apply IH].
Qed.

Section unwritable.
Context {rt : PyRuntime}.

Lemma dumps_strings_scalar_inv (strs : list pystr) :
  forallb scalar_value (json_dumps indent2_opts (JList (JStr <$> strs))) = true →
  Forall (λ s, forallb scalar_value s = true) strs.
Proof.
  rewrite dumps_strings. destruct strs as [|s0 strs]; [constructor|].
  change (91 :: [10; 32; 32] ++ ?x) with ([91; 10; 32; 32] ++ x).
  rewrite !forallb_app. intros [_ [H _]%andb_true_iff]%andb_true_iff.
  by apply join_quoted_scalar_inv.
Qed.

(** X17. The progress file of a set of identifier strings is written exactly
    when UTF-8 can encode every identifier: one lone surrogate in one
    identifier makes [save_progress] raise. *)
Theorem save_progress_writes_iff_encodable (ids : gset pystr) :
  is_Some (save_progress (set_map AStr ids))
  ↔ ∀ s, s ∈ ids → forallb scalar_value s = true.
Proof.
  split.
  - intros [file Hfile] s Hs. unfold save_progress, write_text in Hfile.
    destruct (strings_of_set ids) as (strs & Hstrs & _).
    rewrite Hstrs, <- list_fmap_compose in Hfile.
    change (atom_json ∘ AStr) with JStr in Hfile.
    destruct (forallb scalar_value _) eqn:E; [|discriminate].
    apply dumps_strings_scalar_inv in E. rewrite List.Forall_forall in E.
    apply E, list_elem_of_In.
    assert (AStr s ∈ AStr <$> strs) as Hin.
    { rewrite <- Hstrs, set_order_perm. apply elem_of_elements, elem_of_map. eauto. }
    apply list_elem_of_fmap in Hin as (s' & [= ->] & Hin). done.
  - intros Hids. destruct (save_load_strings ids Hids) as (file & -> & _). eauto.
Qed.
End unwritable.

(** ** The further properties at the sample inputs *)

Lemma fetch_sitemap_entries_witness :
  ∃ entries, fetch_sitemap (Some sample_sitemap) = Some entries
    ∧ (length entries ≤ length (findall_url sample_sitemap))%nat.
Proof.
  destruct (fetch_sitemap_entries sample_sitemap) as (entries & H & Hlen & _).
  by exists entries.
Defined.

Lemma extract_endpoint_spec_witness :
  plain_word (u "mobiles") = true
  ∧ extract_endpoint (u "mobiles") sample_entry
    = Some {| url := u "/mobiles/a-b"; lastmod := Some (u "2024-01-01") |}
  ∧ u "/mobiles/a-b" `suffix_of` url sample_entry
  ∧ endpoint_path (u "mobiles") (u "/mobiles/a-b").
Proof.
  split; [reflexivity|]. split; [reflexivity|].
  destruct (proj1 (extract_endpoint_spec (u "mobiles") sample_entry
                     {| url := u "/mobiles/a-b"; lastmod := Some (u "2024-01-01") |}
                     eq_refl)
              eq_refl) as (H1 & H2 & _).
  by split.
Defined.

Lemma extract_endpoint_idempotent_witness :
  plain_word (u "mobiles") = true
  ∧ extract_endpoint (u "mobiles") sample_entry
    = Some {| url := u "/mobiles/a-b"; lastmod := Some (u "2024-01-01") |}
  ∧ extract_endpoint (u "mobiles")
      {| url := u "/mobiles/a-b"; lastmod := Some (u "2024-01-01") |}
    = Some {| url := u "/mobiles/a-b"; lastmod := Some (u "2024-01-01") |}.
Proof.
  split; [reflexivity|]. split; [reflexivity|].
  exact (proj1 (extract_endpoint_idempotent (u "mobiles") [] eq_refl)
           sample_entry _ eq_refl).
Defined.

Lemma Sa_key_alphabet_witness :
  float_free sample_payload = true
  ∧ ∃ key, Sa (rt := sample_runtime) sample_payload = Some key ∧ Forall key_char key
      ∧ (truthy sample_payload = true → ∃ rest, key = 49 :: rest).
Proof.
  split; [reflexivity|].
  exact (Sa_key_alphabet (rt := sample_runtime) sample_payload eq_refl).
Defined.

Lemma Sa_key_determines_text_witness :
  float_free sample_payload = true
  ∧ truthy sample_payload = true
  ∧ Sa (rt := sample_runtime) sample_payload = Sa (rt := sample_runtime) (payload (u "/mobiles/A_b") 5000)
  ∧ json_dumps (rt := sample_runtime) compact_opts sample_payload
    = json_dumps (rt := sample_runtime) compact_opts (payload (u "/mobiles/A_b") 5000).
Proof.
  split; [reflexivity|]. split; [reflexivity|]. split; [reflexivity|].
  exact (Sa_key_determines_text (rt := sample_runtime) sample_payload
           (payload (u "/mobiles/A_b") 5000) eq_refl eq_refl eq_refl eq_refl eq_refl).
Defined.

Lemma Sa_payload_nonce_witness :
  5000 ≠ 5001
  ∧ Sa (rt := sample_runtime) (payload (u "/mobiles/A_b") 5000)
    ≠ Sa (rt := sample_runtime) (payload (u "/mobiles/A_b") 5001).
Proof.
  split; [discriminate|].
  apply (Sa_payload_nonce (rt := sample_runtime)). discriminate.
Defined.

Lemma parse_product_columns_witness :
  parse_product (rt := sample_runtime) sample_document (Some (u "2024-01-01"))
  = Some sample_record
  ∧ dict_keys sample_record = u "General.SIM" :: core_fields
  ∧ NoDup (dict_keys sample_record).
Proof.
  split; [reflexivity|].
  exact (parse_product_columns (rt := sample_runtime) sample_document
           (Some (u "2024-01-01")) sample_record eq_refl).
Defined.

Lemma parse_product_last_write_wins_witness :
  parse_product (rt := sample_runtime) sample_document (Some (u "2024-01-01"))
  = Some sample_record
  ∧ spec_pairs (rt := sample_runtime) sample_document
    = [] ++ (u "General.SIM", JStr (u "Dual")) :: []
  ∧ dict_get (u "General.SIM") sample_record = Some (JStr (u "Dual")).
Proof.
  split; [reflexivity|]. split; [reflexivity|].
  refine (proj1 (parse_product_last_write_wins (rt := sample_runtime) sample_document
                   (Some (u "2024-01-01")) sample_record (u "General.SIM") eq_refl)
            [] (JStr (u "Dual")) [] eq_refl _).
  apply not_elem_of_nil.
Defined.

Lemma fetch_loop_leaves_failures_witness :
  {| url := u "/mobiles/b"; lastmod := None |}
    ∈ to_process sample_feed
        (fetch_loop (rt := sample_runtime) sample_world 0 sample_feed [] ∅).2
  ∧ {| url := u "/mobiles/b"; lastmod := None |} ∈ to_process sample_feed ∅.
Proof.
  assert (H : {| url := u "/mobiles/b"; lastmod := None |}
    ∈ to_process sample_feed
        (fetch_loop (rt := sample_runtime) sample_world 0 sample_feed [] ∅).2).
  { vm_compute. apply list_elem_of_here. }
  split; [exact H|].
  exact (proj1 (proj1 (fetch_loop_leaves_failures (rt := sample_runtime) sample_world 0
                         sample_feed [] ∅ sample_feed _) H)).
Defined.

Lemma main_finished_feed_witness :
  next_batch BATCH_SIZE sample_feed
    (load_progress (rt := sample_runtime) sample_progress) = []
  ∧ main (rt := sample_runtime) sample_world sample_feed
      {| progress_file := sample_progress; csv_file := StoreAbsent |}
    = Some {| progress_file := sample_progress; csv_file := StoreAbsent |}.
Proof.
  assert (H : next_batch BATCH_SIZE sample_feed
                (load_progress (rt := sample_runtime) sample_progress) = [])
    by (by vm_compute).
  split; [exact H|].
  exact (proj2 (main_finished_feed (rt := sample_runtime) sample_world sample_feed
                  {| progress_file := sample_progress; csv_file := StoreAbsent |}) H).
Defined.


Lemma main_store_growth_witness :
  main (rt := sample_runtime) sample_world sample_feed empty_files
  = Some sample_files_after
  ∧ (csv_file sample_files_after = StoreAbsent
     ∨ ∃ df, csv_file sample_files_after = StoreTable df
         ∧ (0 < length (rows df) ≤ 100)%nat).
Proof.
  assert (H : main (rt := sample_runtime) sample_world sample_feed empty_files
              = Some sample_files_after) by (vm_compute; reflexivity).
  split; [exact H|].
  exact (main_store_growth (rt := sample_runtime) sample_world sample_feed
           empty_files sample_files_after H).
Defined.

Lemma write_store_well_formed_witness :
  write_store StoreAbsent [sample_record]
  = Some (StoreTable (json_normalize [sample_record]))
  ∧ ∃ df, StoreTable (json_normalize [sample_record]) = StoreTable df
      ∧ well_formed df ∧ (length [sample_record] ≤ length (rows df))%nat.
Proof.
  split; [reflexivity|].
  apply (write_store_well_formed StoreAbsent _ [sample_record] eq_refl); [done|].
  intros df [=].
Defined.


Lemma save_progress_writes_iff_encodable_witness :
  (∀ s, s ∈ ({[u "/mobiles/a"; u "/mobiles/c"]} : gset pystr) →
     forallb scalar_value s = true)
  ∧ is_Some (save_progress (rt := sample_runtime)
               (set_map AStr ({[u "/mobiles/a"; u "/mobiles/c"]} : gset pystr))).
Proof.
  assert (H : ∀ s, s ∈ ({[u "/mobiles/a"; u "/mobiles/c"]} : gset pystr) →
                   forallb scalar_value s = true).
  { intros s [->%elem_of_singleton| ->%elem_of_singleton]%elem_of_union; reflexivity. }
  split; [exact H|].
  exact (proj2 (save_progress_writes_iff_encodable (rt := sample_runtime) _) H).
Defined.
